(** * Library Management System: a shallow embedding of [project2.cpp]

    The program keeps two vectors, [inventory : std::vector<Book>] and
    [users : std::vector<User>], and drives them from a menu loop.  The
    lending operations are the methods [User::borrowBook],
    [User::returnBook] and [User::payFines]; the catalogue operations are
    [Librarian::addBook] and [Librarian::removeBook].

    Modelling choices.
    - A [Book*] is the position of the book's slot in the storage of the
      [inventory] vector, and the [this] pointer of a [User] method is the
      position of the user's slot in [users].  Dereferencing a position that
      is not inside the vector has no defined behaviour; the model has no
      result there ([None]).  Relocation of the storage by [emplace_back] is
      not modelled: positions survive it.  In the program a pointer held by
      a user is only good until the next [addBook] that moves the storage;
      the properties of the pointers held are therefore stated for runs that
      add no book while a book is lent ([pointers_kept], [quiet_session]).
    - [time_t] is [Z], without a bound: the program only adds 5 to a clock
      reading and compares readings, far from the limits of a 64-bit
      [time_t], where signed overflow would have no defined behaviour.
      The clock is a source of readings
      [time_source : nat -> Z] together with the number of calls
      [time(0)] made so far, so that each call is visible in the state.
    - [double] is idealised as exact rational arithmetic ([Q]) in the
      memory of the program; rounding is out of that model.  Where rounding
      decides a property, [payFines_double] gives [User::payFines] on
      binary64 numbers.
    - [std::cout] is the list of messages that the methods of [User] and
      [Librarian] have printed so far.  What [main] and the display methods
      print is the value that their model returns: the operands of [<<] in
      the order of the source; in every iteration of the menu loop [main]
      prints its own text before it calls a method.
    - [std::cin] is the list of the values that the iterations of the menu
      loop read, already parsed. *)

From Stdlib Require Import ZArith QArith Lqa Ascii String Floats.PrimFloat.
From stdpp Require Import base tactics option list.

Local Open Scope Z_scope.

(** ** Data *)

(** [class Book] (lines 32-62). *)
Record Book := mkBook {
  title : string;
  author : string;
  ISBN : string;
  isAvailable : bool;   (* Tracks if book is available for checkout *)
  dueDate : Z           (* Stores due date if checked out *)
}.

(** [Book::Book(title, author, ISBN)]: available, [dueDate(0)]. *)
Definition newBook (t a i : string) : Book :=
  mkBook t a i true 0.

Definition getISBN (b : Book) : string := ISBN b.
Definition getAvailability (b : Book) : bool := isAvailable b.
Definition getDueDate (b : Book) : Z := dueDate b.

Definition setAvailability (available : bool) (b : Book) : Book :=
  mkBook (title b) (author b) (ISBN b) available (dueDate b).

Definition setDueDate (date : Z) (b : Book) : Book :=
  mkBook (title b) (author b) (ISBN b) (isAvailable b) date.

(** A [Book*]: the position of a slot of the inventory vector. *)
Abbreviation BookPtr := nat (only parsing).

(** [class User] (lines 68-139). *)
Record User := mkUser {
  name : string;
  userID : string;
  borrowedBooks : list BookPtr;   (* std::vector<Book*> *)
  fines : Q                       (* double *)
}.

(** [User::User(name, userID)]: no borrowed books, [fines(0.0)]. *)
Definition newUser (n id : string) : User :=
  mkUser n id [] 0%Q.

Definition set_borrowedBooks (l : list BookPtr) (u : User) : User :=
  mkUser (name u) (userID u) l (fines u).

Definition set_fines (f : Q) (u : User) : User :=
  mkUser (name u) (userID u) (borrowedBooks u) f.

(** What the program prints; each constructor stands for one output
    statement of the source. *)
Inductive Msg :=
| BookBorrowed                    (* "Book borrowed successfully." *)
| BookNotAvailable                (* "Book is not available." *)
| ReturnedLate (fine : Q)         (* "Book returned late. Fine added: $" fine *)
| BookReturned                    (* "Book returned successfully." *)
| NotBorrowed                     (* "You didn't borrow this book." *)
| Paid (amount remaining : Q)     (* "Paid $" amount " towards fines. Remaining: $" remaining *)
| PaymentExceeds                  (* "Payment exceeds owed fines." *)
| BookAdded                       (* "Book added to inventory." *)
| BookRemoved                     (* "Book removed from inventory." *)
| BookNotFound                    (* "Book not found in inventory." *)
| UserRegistered.                 (* "User registered successfully." *)

(** The memory of the running program. *)
Record State := mkState {
  inventory : list Book;      (* std::vector<Book> inventory *)
  users : list User;          (* std::vector<User> users *)
  time_source : nat -> Z;     (* the k-th call of time(0) returns [time_source k] *)
  ticks : nat;                (* number of calls of time(0) so far *)
  cout : list Msg             (* messages printed so far *)
}.

Definition set_inventory (inv : list Book) (s : State) : State :=
  mkState inv (users s) (time_source s) (ticks s) (cout s).

Definition set_users (us : list User) (s : State) : State :=
  mkState (inventory s) us (time_source s) (ticks s) (cout s).

(** [main], lines 200-201: both vectors start empty. *)
Definition initial (clk : nat -> Z) : State :=
  mkState [] [] clk 0 [].

(** ** Effects: state passing with undefined behaviour as [None] *)

Definition M (A : Type) : Type := State -> option (A * State).

Definition ret {A} (x : A) : M A := fun s => Some (x, s).

Definition bind {A B} (m : M A) (k : A -> M B) : M B :=
  fun s => match m s with
           | Some (x, s') => k x s'
           | None => None
           end.

Declare Scope m_scope.
Delimit Scope m_scope with M.
Notation "'let*' x := m 'in' k" := (bind m (fun x => k))
  (at level 10, x name, m at level 100, k at level 200, only parsing) : m_scope.
Notation "m >> k" := (bind m (fun _ => k))
  (at level 60, right associativity) : m_scope.
Local Open Scope m_scope.

(** [*book] for reading. *)
Definition deref (book : BookPtr) : M Book :=
  fun s => match inventory s !! book with
           | Some b => Some (b, s)
           | None => None
           end.

(** A mutation of [*book] through one of the setters of [Book]. *)
Definition update_book (book : BookPtr) (f : Book -> Book) : M unit :=
  let* b := deref book in
  fun s => Some (tt, set_inventory (<[book := f b]> (inventory s)) s).

(** [*this] for reading. *)
Definition self (this : nat) : M User :=
  fun s => match users s !! this with
           | Some u => Some (u, s)
           | None => None
           end.

(** A mutation of a field of [*this]. *)
Definition update_self (this : nat) (f : User -> User) : M unit :=
  let* u := self this in
  fun s => Some (tt, set_users (<[this := f u]> (users s)) s).

(** [time(0)]: one reading of the clock. *)
Definition time0 : M Z :=
  fun s => Some (time_source s (ticks s),
                 mkState (inventory s) (users s) (time_source s) (S (ticks s)) (cout s)).

(** [std::cout << ...]. *)
Definition print (m : Msg) : M unit :=
  fun s => Some (tt, mkState (inventory s) (users s) (time_source s) (ticks s)
                             (cout s ++ [m])).

(** ** Algorithms of the standard library used by the program *)

(** [std::find_if(begin, end, p)]: the position of the first element that
    satisfies [p]; [None] stands for [end()]. *)
Fixpoint find_if {A} (p : A -> bool) (l : list A) : option nat :=
  match l with
  | [] => None
  | x :: l' => if p x then Some O else S <$> find_if p l'
  end.

(** [std::find(begin, end, value)] on a vector of pointers: pointers are
    compared, not the books they point to. *)
Definition find (l : list BookPtr) (value : BookPtr) : option nat :=
  find_if (Nat.eqb value) l.

(** [difftime(a, b)]: the difference in seconds, as a [double]. *)
Definition difftime (a b : Z) : Q := inject_Z (a - b).

(** ** [User::borrowBook] (lines 87-99) *)
Definition borrowBook (this : nat) (book : BookPtr) : M unit :=
  let* b := deref book in
  if getAvailability b then
    update_self this (fun u => set_borrowedBooks (borrowedBooks u ++ [book]) u) >>
    update_book book (setAvailability false) >>
    let* now := time0 in
    update_book book (setDueDate (now + 5)) >>
    print BookBorrowed
  else
    print BookNotAvailable.

(** ** [User::returnBook] (lines 102-121) *)
Definition returnBook (this : nat) (book : BookPtr) : M unit :=
  let* u := self this in
  match find (borrowedBooks u) book with
  | Some it =>
      update_self this (fun u => set_borrowedBooks (delete it (borrowedBooks u)) u) >>
      update_book book (setAvailability true) >>
      let* now := time0 in
      let* b := deref book in
      (if now >? getDueDate b then
         let daysOverdue := (difftime now (getDueDate b) / 1)%Q in
         update_self this (fun u => set_fines (fines u + daysOverdue * 2)%Q u) >>
         print (ReturnedLate (daysOverdue * 2)%Q)
       else ret tt) >>
      update_book book (setDueDate 0) >>
      print BookReturned
  | None =>
      print NotBorrowed
  end.

(** ** [User::payFines] (lines 124-131) *)
Definition payFines (this : nat) (amount : Q) : M unit :=
  let* u := self this in
  if Qle_bool amount (fines u) then
    update_self this (fun u => set_fines (fines u - amount)%Q u) >>
    let* u' := self this in
    print (Paid amount (fines u'))
  else
    print PaymentExceeds.

(** ** [User::payFines] on binary64 numbers *)

(** What [payFines] prints, with the numbers as doubles. *)
Inductive PayReport :=
| PaidReport (amount remaining : float)   (* "Paid $" amount " towards fines. Remaining: $" remaining *)
| ExceedsReport.                          (* "Payment exceeds owed fines." *)

(** [User::payFines] (lines 124-131) with [double] as it is on the
    machine: [<=] and [-=] are the comparison and the subtraction of IEEE 754
    binary64.  The method reads and writes the field [fines] only; the
    result is the new value of the field and the message printed. *)
Definition payFines_double (fines amount : float) : float * PayReport :=
  if PrimFloat.leb amount fines then
    let fines' := PrimFloat.sub fines amount in
    (fines', PaidReport amount fines')
  else
    (fines, ExceedsReport).

(** ** [Librarian::addBook] (lines 156-160) *)
Definition addBook (t a i : string) : M unit :=
  (fun s => Some (tt, set_inventory (inventory s ++ [newBook t a i]) s)) >>
  print BookAdded.

(** ** [Librarian::removeBook] (lines 163-173) *)
Definition removeBook (i : string) : M unit :=
  let* inv := (fun s => Some (inventory s, s)) in
  match find_if (fun b => String.eqb (getISBN b) i) inv with
  | Some it =>
      (fun s => Some (tt, set_inventory (delete it (inventory s)) s)) >>
      print BookRemoved
  | None =>
      print BookNotFound
  end.

(** [main], case 4: [users.emplace_back(name, userID)]. *)
Definition registerUser (n id : string) : M unit :=
  (fun s => Some (tt, set_users (users s ++ [newUser n id]) s)) >>
  print UserRegistered.

(** ** Runs of the program *)

(** The state-changing operations that the menu of [main] offers. *)
Inductive Op :=
| AddBook (t a i : string)
| RemoveBook (i : string)
| RegisterUser (n id : string)
| BorrowBook (user : nat) (book : BookPtr)
| ReturnBook (user : nat) (book : BookPtr)
| PayFines (user : nat) (amount : Q).

Definition run_op (o : Op) : M unit :=
  match o with
  | AddBook t a i => addBook t a i
  | RemoveBook i => removeBook i
  | RegisterUser n id => registerUser n id
  | BorrowBook u b => borrowBook u b
  | ReturnBook u b => returnBook u b
  | PayFines u a => payFines u a
  end.

Fixpoint exec (ops : list Op) : M unit :=
  match ops with
  | [] => ret tt
  | o :: ops' => run_op o >> exec ops'
  end.

(** ** Outcomes of the lending operations *)

(** The state after a successful [borrowBook]. *)
Definition borrowed (this : nat) (book : BookPtr) (u : User) (b : Book) (s : State) : State :=
  mkState
    (<[book := mkBook (title b) (author b) (ISBN b) false (time_source s (ticks s) + 5)]>
       (inventory s))
    (<[this := mkUser (name u) (userID u) (borrowedBooks u ++ [book]) (fines u)]> (users s))
    (time_source s) (S (ticks s)) (cout s ++ [BookBorrowed]).

(** The fine that [returnBook] adds for a book due at [due] when the clock
    reads [now] (lines 110-112). *)
Definition late_fine (now due : Z) : Q :=
  (difftime now due / 1 * 2)%Q.

(** The state after a successful [returnBook] that found the pointer at
    position [it] of the list of borrowed books. *)
Definition returned (this : nat) (book : BookPtr) (it : nat) (u : User) (b : Book)
    (s : State) : State :=
  let now := time_source s (ticks s) in
  let late := now >? dueDate b in
  mkState
    (<[book := mkBook (title b) (author b) (ISBN b) true 0]> (inventory s))
    (<[this := mkUser (name u) (userID u) (delete it (borrowedBooks u))
                      (if late then (fines u + late_fine now (dueDate b))%Q else fines u)]>
       (users s))
    (time_source s) (S (ticks s))
    (cout s ++ (if late then [ReturnedLate (late_fine now (dueDate b))] else [])
            ++ [BookReturned]).

(** ** Properties of states *)

(** The invariant of [Book]: a due date is stored exactly while the book is
    checked out; 0 is the value of [dueDate] when none is stored. *)
Definition book_ok (b : Book) : Prop :=
  dueDate b <> 0 <-> isAvailable b = false.

(** A clock none of whose readings is 5 seconds before the Epoch, so that
    [now + 5] is never the value 0 that stands for "no due date".  Every
    reading at or after the Epoch satisfies it, and so does the error value
    -1 of [time]. *)
Definition clock_ok (clk : nat -> Z) : Prop :=
  forall k, clk k + 5 <> 0.

Definition books_ok (s : State) : Prop :=
  clock_ok (time_source s) /\ Forall book_ok (inventory s).

(** The invariant of [User]: the balance of fines is not negative. *)
Definition fines_ok (s : State) : Prop :=
  Forall (fun u => (0 <= fines u)%Q) (users s).

(** Book identifiers are unique in the inventory. *)
Definition unique_identifiers (s : State) : Prop :=
  NoDup (getISBN <$> inventory s).

(** The operation, if it is an [addBook], is given an identifier that no
    book of the inventory has. *)
Definition fresh_add (o : Op) (s : State) : Prop :=
  match o with
  | AddBook _ _ i => i ∉ (getISBN <$> inventory s)
  | _ => True
  end.

(** Every [addBook] of the run is given an identifier that is fresh at the
    moment of the call. *)
Fixpoint adds_fresh (ops : list Op) (s : State) : Prop :=
  match ops with
  | [] => True
  | o :: ops' =>
      fresh_add o s /\
      match run_op o s with
      | Some (_, s') => adds_fresh ops' s'
      | None => True
      end
  end.

(** ** The rest of the classes: getters and display methods *)

Definition getTitle (b : Book) : string := title b.
Definition getName (u : User) : string := name u.
Definition getFines (u : User) : Q := fines u.
Definition getBorrowedBooks (u : User) : list BookPtr := borrowedBooks u.

(** What [main] and the display methods send to [std::cout]: the operands
    of [<<] in the order of the source, a string, a [size_t] or a [double]
    each.  How the stream formats numbers is not modelled. *)
Inductive Chunk :=
| Str (s : string)
| Num (n : nat)
| Dbl (q : Q).

(** The string of [\n]. *)
Definition nl : string := String "010"%char "".

Definition dashes : Chunk := Str ("-----------------" ++ nl).

(** [Book::displayInfo] (lines 57-61). *)
Definition Book_displayInfo (b : Book) : list Chunk :=
  [Str "Title: "; Str (title b); Str (nl ++ "Author: "); Str (author b);
   Str (nl ++ "ISBN: "); Str (ISBN b); Str (nl ++ "Status: ");
   Str (if isAvailable b then "Available" else "Checked Out"); Str nl].

(** [User::displayInfo] (lines 134-138). *)
Definition User_displayInfo (u : User) : list Chunk :=
  [Str "User: "; Str (name u); Str (nl ++ "ID: "); Str (userID u);
   Str (nl ++ "Fines: $"); Dbl (fines u); Str (nl ++ "Borrowed books: ");
   Num (length (borrowedBooks u)); Str nl].

(** [Librarian::displayInventory] (lines 176-182). *)
Definition displayInventory (inv : list Book) : list Chunk :=
  Str (nl ++ "Library Inventory:" ++ nl)
  :: concat ((fun book => Book_displayInfo book ++ [dashes]) <$> inv).

(** The loop of [Librarian::displayUserInfo] (lines 188-191): every
    pointer of the list is dereferenced. *)
Fixpoint displayBorrowed (ptrs : list BookPtr) : M (list Chunk) :=
  match ptrs with
  | [] => ret []
  | book :: rest =>
      let* b := deref book in
      let* out := displayBorrowed rest in
      ret (Book_displayInfo b ++ dashes :: out)
  end.

(** [Librarian::displayUserInfo] (lines 185-192). *)
Definition displayUserInfo (user : User) : M (list Chunk) :=
  let* out := displayBorrowed (getBorrowedBooks user) in
  ret (User_displayInfo user ++ Str ("Borrowed Books:" ++ nl) :: out).

(** ** [main] (lines 199-383) *)

(** What one iteration of the menu loop reads from [std::cin]: the choice
    and, for each choice, the values that the case reads.  Cases 6 and 7
    read their second value only when the first one is accepted; the second
    value is not looked at otherwise.  Input that [std::cin] cannot parse is
    out of the model. *)
Inductive Input :=
| Choice1 (title author ISBN : string)
| Choice2 (ISBN : string)
| Choice3
| Choice4 (name userID : string)
| Choice5 (userIndex bookIndex : nat)
| Choice6 (userIndex bookIndex : nat)
| Choice7 (userIndex : nat) (amount : Q)
| Choice8 (userIndex : nat)
| Choice0
| ChoiceOther.     (* any number outside 0..8 *)

(** Lines 207-217. *)
Definition menu : list Chunk :=
  [Str (nl ++ "Library Management System" ++ nl);
   Str ("1. Add Book" ++ nl);
   Str ("2. Remove Book" ++ nl);
   Str ("3. Display Inventory" ++ nl);
   Str ("4. Register User" ++ nl);
   Str ("5. Borrow Book" ++ nl);
   Str ("6. Return Book" ++ nl);
   Str ("7. Pay Fines" ++ nl);
   Str ("8. Display User Info" ++ nl);
   Str ("0. Exit" ++ nl);
   Str "Enter choice: "].

(** The whole memory, for the tests that [main] makes on its vectors. *)
Definition get : M State := fun s => Some (s, s).

(** [v.empty()]. *)
Definition vec_empty {A} (v : list A) : bool :=
  match v with
  | [] => true
  | _ => false
  end.

(** "Select user (0-" << users.size()-1 << "):\n" and the loop that lists
    the names (lines 262-265, 292-295, 359-362). *)
Definition select_user (us : list User) : list Chunk :=
  [Str "Select user (0-"; Num (length us - 1); Str ("):" ++ nl)]
  ++ concat (imap (fun i u => [Num i; Str ". "; Str (getName u); Str nl]) us).

(** The same with the fines of each user (lines 333-337). *)
Definition select_user_fines (us : list User) : list Chunk :=
  [Str "Select user (0-"; Num (length us - 1); Str ("):" ++ nl)]
  ++ concat (imap (fun i u => [Num i; Str ". "; Str (getName u); Str " (Fines: $";
                               Dbl (getFines u); Str (")" ++ nl)]) us).

(** Lines 270-273. *)
Definition select_book (inv : list Book) : list Chunk :=
  [Str "Select book (0-"; Num (length inv - 1); Str ("):" ++ nl)]
  ++ concat (imap (fun i b => [Num i; Str ". "; Str (getTitle b); Str nl]) inv).

(** The loop of lines 312-314: the title of every borrowed book is read
    through its pointer. *)
Fixpoint list_borrowed (i : nat) (ptrs : list BookPtr) : M (list Chunk) :=
  match ptrs with
  | [] => ret []
  | book :: rest =>
      let* b := deref book in
      let* out := list_borrowed (S i) rest in
      ret ([Num i; Str ". "; Str (getTitle b); Str nl] ++ out)
  end.

(** Case 1 (lines 221-232). *)
Definition case1 (t a i : string) : M (list Chunk) :=
  addBook t a i >>
  ret [Str "Enter title: "; Str "Enter author: "; Str "Enter ISBN: "].

(** Case 2 (lines 233-240). *)
Definition case2 (i : string) : M (list Chunk) :=
  removeBook i >>
  ret [Str "Enter ISBN of book to remove: "].

(** Case 3 (lines 241-243). *)
Definition case3 : M (list Chunk) :=
  let* s := get in
  ret (displayInventory (inventory s)).

(** Case 4 (lines 244-254). *)
Definition case4 (n id : string) : M (list Chunk) :=
  registerUser n id >>
  ret [Str "Enter user name: "; Str "Enter user ID: "].

(** Case 5 (lines 255-284). *)
Definition case5 (userIndex bookIndex : nat) : M (list Chunk) :=
  let* s := get in
  if vec_empty (users s) || vec_empty (inventory s) then
    ret [Str ("No users or books available." ++ nl)]
  else
    let prompts := select_user (users s) ++ select_book (inventory s) in
    if (userIndex <? length (users s))%nat && (bookIndex <? length (inventory s))%nat then
      borrowBook userIndex bookIndex >>
      ret prompts
    else
      ret (prompts ++ [Str ("Invalid selection." ++ nl)]).

(** Case 6 (lines 285-325). *)
Definition case6 (userIndex bookIndex : nat) : M (list Chunk) :=
  let* s := get in
  if vec_empty (users s) then
    ret [Str ("No users available." ++ nl)]
  else
    let prompt := select_user (users s) in
    if (length (users s) <=? userIndex)%nat then
      ret (prompt ++ [Str ("Invalid user selection." ++ nl)])
    else
      let* u := self userIndex in
      let borrowed := getBorrowedBooks u in
      if vec_empty borrowed then
        ret (prompt ++ [Str ("No books borrowed." ++ nl)])
      else
        let* titles := list_borrowed 0 borrowed in
        let prompts :=
          prompt ++ [Str "Select book to return (0-"; Num (length borrowed - 1);
                     Str ("):" ++ nl)] ++ titles in
        match borrowed !! bookIndex with
        | Some book =>
            returnBook userIndex book >>
            ret prompts
        | None =>
            ret (prompts ++ [Str ("Invalid book selection." ++ nl)])
        end.

(** Case 7 (lines 326-351). *)
Definition case7 (userIndex : nat) (amount : Q) : M (list Chunk) :=
  let* s := get in
  if vec_empty (users s) then
    ret [Str ("No users available." ++ nl)]
  else
    let prompt := select_user_fines (users s) in
    if (userIndex <? length (users s))%nat then
      payFines userIndex amount >>
      ret (prompt ++ [Str "Enter amount to pay: $"])
    else
      ret (prompt ++ [Str ("Invalid selection." ++ nl)]).

(** Case 8 (lines 352-373). *)
Definition case8 (userIndex : nat) : M (list Chunk) :=
  let* s := get in
  if vec_empty (users s) then
    ret [Str ("No users available." ++ nl)]
  else
    let prompt := select_user (users s) in
    if (userIndex <? length (users s))%nat then
      let* u := self userIndex in
      let* info := displayUserInfo u in
      ret (prompt ++ info)
    else
      ret (prompt ++ [Str ("Invalid selection." ++ nl)]).

(** The body of the [do] loop: the menu, then the [switch]. *)
Definition iteration (inp : Input) : M (list Chunk) :=
  let* out :=
    match inp with
    | Choice1 t a i => case1 t a i
    | Choice2 i => case2 i
    | Choice3 => case3
    | Choice4 n id => case4 n id
    | Choice5 ui bi => case5 ui bi
    | Choice6 ui bi => case6 ui bi
    | Choice7 ui amount => case7 ui amount
    | Choice8 ui => case8 ui
    | Choice0 => ret [Str ("Exiting..." ++ nl)]
    | ChoiceOther => ret [Str ("Invalid choice. Try again." ++ nl)]
    end in
  ret (menu ++ out).

(** [do { ... } while (choice != 0)], on the inputs read so far: the loop
    ends with the iteration that reads choice 0. *)
Fixpoint main_loop (inputs : list Input) : M (list Chunk) :=
  match inputs with
  | [] => ret []
  | inp :: rest =>
      let* out := iteration inp in
      match inp with
      | Choice0 => ret out
      | _ => let* out' := main_loop rest in ret (out ++ out')
      end
  end.

(** [main] on a clock and the inputs. *)
Definition main (clk : nat -> Z) (inputs : list Input) : option (list Chunk * State) :=
  main_loop inputs (initial clk).

(** ** Properties of the lending state *)

(** The pointers that the users hold, user after user. *)
Definition held (s : State) : list BookPtr :=
  concat (borrowedBooks <$> users s).

(** Pointers held and availability flags agree: no pointer is held
    twice, and the pointers held are exactly the positions of the books that
    are checked out. *)
Definition agree (h : list BookPtr) (inv : list Book) : Prop :=
  NoDup h /\
  forall p, p ∈ h <-> exists b, inv !! p = Some b /\ isAvailable b = false.

Definition lending_ok (s : State) : Prop :=
  agree (held s) (inventory s).

Definition is_remove (o : Op) : bool :=
  match o with
  | RemoveBook _ => true
  | _ => false
  end.

Definition is_choice2 (inp : Input) : bool :=
  match inp with
  | Choice2 _ => true
  | _ => false
  end.

Definition is_add (o : Op) : bool :=
  match o with
  | AddBook _ _ _ => true
  | _ => false
  end.

Definition is_choice1 (inp : Input) : bool :=
  match inp with
  | Choice1 _ _ _ => true
  | _ => false
  end.

(** A run that keeps the pointers of the users good in the program: it
    removes no book, which would shift the books behind it, and it adds a
    book only while no user holds a pointer, since [emplace_back] may move
    the storage of the inventory. *)
Fixpoint pointers_kept (ops : list Op) (s : State) : Prop :=
  match ops with
  | [] => True
  | o :: ops' =>
      is_remove o = false /\
      (is_add o = true -> held s = []) /\
      match run_op o s with
      | Some (_, s') => pointers_kept ops' s'
      | None => True
      end
  end.

(** The same for the inputs of the menu: choice 2 is never taken, and
    choice 1 only while no user holds a pointer. *)
Fixpoint quiet_session (inputs : list Input) (s : State) : Prop :=
  match inputs with
  | [] => True
  | inp :: rest =>
      is_choice2 inp = false /\
      (is_choice1 inp = true -> held s = []) /\
      match iteration inp s with
      | Some (_, s') => quiet_session rest s'
      | None => True
      end
  end.

(** ** Sample runs *)

Local Open Scope string_scope.

(** A clock that advances 15 seconds between two readings. *)
Definition slow_clock (k : nat) : Z := 100 + 15 * Z.of_nat k.

(** A clock that advances 1 second between two readings. *)
Definition quick_clock (k : nat) : Z := 100 + Z.of_nat k.

Definition ada : User := newUser "Ada" "U1".
Definition dune : Book := newBook "Dune" "Herbert" "42".

(** One registered user and one book on the shelf. *)
Definition opened (clk : nat -> Z) : State :=
  mkState [dune] [ada] clk 0 [UserRegistered; BookAdded].

(** The same library after the user has borrowed the book. *)
Definition lent (clk : nat -> Z) : State :=
  mkState [mkBook "Dune" "Herbert" "42" false (clk O + 5)]
          [mkUser "Ada" "U1" [O] 0%Q]
          clk 1 [UserRegistered; BookAdded; BookBorrowed].

(** The same library after the book has come back 10 seconds late. *)
Definition fined : State :=
  mkState [dune] [mkUser "Ada" "U1" [] (0 + inject_Z 10 / 1 * 2)%Q]
          slow_clock 2
          [UserRegistered; BookAdded; BookBorrowed;
           ReturnedLate (inject_Z 10 / 1 * 2)%Q; BookReturned].

Definition lending_run : list Op :=
  [RegisterUser "Ada" "U1"; AddBook "Dune" "Herbert" "42";
   BorrowBook 0 0; ReturnBook 0 0].

(** Two books entered under one identifier. *)
Definition twin_run : list Op :=
  [AddBook "Dune" "Herbert" "42"; AddBook "Emma" "Austen" "42"].

Definition twins : State :=
  mkState [newBook "Dune" "Herbert" "42"; newBook "Emma" "Austen" "42"] []
          slow_clock 0 [BookAdded; BookAdded].

(** Two books entered under different identifiers, the first removed. *)
Definition tidy_run : list Op :=
  [AddBook "Dune" "Herbert" "42"; AddBook "Emma" "Austen" "43"; RemoveBook "42"].

Definition tidy : State :=
  mkState [newBook "Emma" "Austen" "43"] []
          slow_clock 0 [BookAdded; BookAdded; BookRemoved].

(** The run that leads to [lent slow_clock]. *)
Definition borrowing_run : list Op :=
  [RegisterUser "Ada" "U1"; AddBook "Dune" "Herbert" "42"; BorrowBook 0 0].

(** A session at the menu: a user is registered, a book is added, the user
    borrows the book and returns it. *)
Definition session : list Input :=
  [Choice4 "Ada" "U1"; Choice1 "Dune" "Herbert" "42"; Choice5 0 0; Choice6 0 0].

(** What [main] itself prints during the session. *)
Definition session_output : list Chunk :=
  Eval vm_compute in
    match main slow_clock session with
    | Some (out, _) => out
    | None => []
    end.

Local Close Scope string_scope.

(** ** Running the primitive effects *)

Section Primitives.
Context {A B : Type}.

Lemma bind_Some (m : M A) (k : A -> M B) s x s' :
  m s = Some (x, s') -> bind m k s = k x s'.
Proof. intros H. unfold bind. now rewrite H. Qed.

Lemma bind_inv (m : M A) (k : A -> M B) s y s'' :
  bind m k s = Some (y, s'') ->
  exists x s', m s = Some (x, s') /\ k x s' = Some (y, s'').
Proof.
  unfold bind. destruct (m s) as [[x s']|] eqn:E; [|discriminate].
  intros H. now exists x, s'.
Qed.
End Primitives.

Lemma deref_Some s book b :
  inventory s !! book = Some b -> deref book s = Some (b, s).
Proof. intros H. unfold deref. now rewrite H. Qed.

Lemma deref_inv s book b s' :
  deref book s = Some (b, s') -> inventory s !! book = Some b /\ s' = s.
Proof.
  unfold deref. destruct (inventory s !! book) eqn:E; [|discriminate].
  intros H. now inversion H; subst.
Qed.

Lemma self_Some s this u :
  users s !! this = Some u -> self this s = Some (u, s).
Proof. intros H. unfold self. now rewrite H. Qed.

Lemma self_inv s this u s' :
  self this s = Some (u, s') -> users s !! this = Some u /\ s' = s.
Proof.
  unfold self. destruct (users s !! this) eqn:E; [|discriminate].
  intros H. now inversion H; subst.
Qed.

Lemma update_book_Some s book b f :
  inventory s !! book = Some b ->
  update_book book f s = Some (tt, set_inventory (<[book := f b]> (inventory s)) s).
Proof. intros H. unfold update_book. now rewrite (bind_Some _ _ _ _ _ (deref_Some _ _ _ H)). Qed.

Lemma update_self_Some s this u f :
  users s !! this = Some u ->
  update_self this f s = Some (tt, set_users (<[this := f u]> (users s)) s).
Proof. intros H. unfold update_self. now rewrite (bind_Some _ _ _ _ _ (self_Some _ _ _ H)). Qed.

Lemma update_book_inv s book f r s' :
  update_book book f s = Some (r, s') ->
  exists b, inventory s !! book = Some b /\
            s' = set_inventory (<[book := f b]> (inventory s)) s.
Proof.
  intros H. apply bind_inv in H as (b & s1 & H1 & H2).
  apply deref_inv in H1 as [H1 ->]. exists b. split; [assumption|].
  now inversion H2.
Qed.

Lemma update_self_inv s this f r s' :
  update_self this f s = Some (r, s') ->
  exists u, users s !! this = Some u /\
            s' = set_users (<[this := f u]> (users s)) s.
Proof.
  intros H. apply bind_inv in H as (u & s1 & H1 & H2).
  apply self_inv in H1 as [H1 ->]. exists u. split; [assumption|].
  now inversion H2.
Qed.

(** Reading a slot that has just been written. *)
Lemma lookup_written {X} (l : list X) i x y :
  l !! i = Some x -> <[i := y]> l !! i = Some y.
Proof. intros H. apply list_lookup_insert_eq. eapply lookup_lt_Some, H. Qed.

(** ** [std::find] *)

Lemma find_if_None {X} (p : X -> bool) (l : list X) :
  find_if p l = None <-> (forall x, x ∈ l -> p x = false).
Proof.
  induction l as [|y l IH]; simpl.
  - split; [|reflexivity]. intros _ x Hx. inversion Hx.
  - destruct (p y) eqn:Ey.
    + split; [discriminate|]. intros H.
      specialize (H y (list_elem_of_here _ _)). congruence.
    + destruct (find_if p l) eqn:E; simpl.
      * split; [discriminate|]. intros H.
        assert (Some n = None) by (apply IH; intros x Hx; apply H; now constructor).
        discriminate.
      * split; [|reflexivity]. intros _ x Hx.
        inversion Hx; subst; [assumption|]. now apply IH.
Qed.

Lemma find_if_Some {X} (p : X -> bool) (l : list X) it :
  find_if p l = Some it ->
  exists x, l !! it = Some x /\ p x = true /\
            (forall j y, (j < it)%nat -> l !! j = Some y -> p y = false).
Proof.
  revert it. induction l as [|y l IH]; simpl; intros it H; [discriminate|].
  destruct (p y) eqn:Ey.
  - inversion H; subst. exists y. repeat split; [assumption|]. intros j z Hj. lia.
  - destruct (find_if p l) as [k|] eqn:E; simpl in H; [|discriminate].
    inversion H; subst. destruct (IH k eq_refl) as (x & Hx & Hp & Hmin).
    exists x. repeat split; [assumption..|].
    intros [|j] z Hj Hz; simpl in Hz.
    + now inversion Hz; subst.
    + apply (Hmin j); [lia|assumption].
Qed.

Lemma find_absent (l : list BookPtr) book :
  book ∉ l <-> find l book = None.
Proof.
  unfold find. rewrite find_if_None. split.
  - intros H x Hx. apply Nat.eqb_neq. intros ->. now apply H.
  - intros H Hin. apply H in Hin. rewrite Nat.eqb_refl in Hin. discriminate.
Qed.

Lemma find_present (l : list BookPtr) book :
  book ∈ l -> exists it, find l book = Some it /\ l !! it = Some book.
Proof.
  intros Hin. destruct (find l book) as [it|] eqn:E.
  - exists it. split; [reflexivity|].
    apply find_if_Some in E as (x & Hx & Hp & _).
    apply Nat.eqb_eq in Hp. now subst.
  - apply find_absent in E. contradiction.
Qed.

(** ** The outcome of each method, case by case *)

Ltac effect_ok :=
  simpl;
  first [ apply deref_Some; simpl; solve [eauto using lookup_written]
        | apply self_Some; simpl; solve [eauto using lookup_written]
        | apply update_book_Some; simpl; solve [eauto using lookup_written]
        | apply update_self_Some; simpl; solve [eauto using lookup_written]
        | erewrite bind_Some; [| solve [effect_ok] ]; solve [effect_ok]
        | reflexivity ].

Ltac run1 := erewrite bind_Some; [| solve [effect_ok] ].

Lemma borrowBook_available s this book u b :
  users s !! this = Some u ->
  inventory s !! book = Some b ->
  isAvailable b = true ->
  borrowBook this book s = Some (tt, borrowed this book u b s).
Proof.
  intros Hu Hb Hav. unfold borrowBook.
  run1. unfold getAvailability. rewrite Hav.
  do 4 run1. simpl. unfold borrowed, setDueDate, setAvailability, set_borrowedBooks; simpl.
  now rewrite list_insert_insert_eq.
Qed.

Lemma borrowBook_unavailable s this book b :
  inventory s !! book = Some b ->
  isAvailable b = false ->
  borrowBook this book s =
    Some (tt, mkState (inventory s) (users s) (time_source s) (ticks s)
                      (cout s ++ [BookNotAvailable])).
Proof.
  intros Hb Hav. unfold borrowBook.
  run1. unfold getAvailability. now rewrite Hav.
Qed.

Lemma borrowBook_inv s this book r s' :
  borrowBook this book s = Some (r, s') ->
  exists b, inventory s !! book = Some b /\
    ((isAvailable b = false /\
      s' = mkState (inventory s) (users s) (time_source s) (ticks s)
                   (cout s ++ [BookNotAvailable]))
     \/ (isAvailable b = true /\
         exists u, users s !! this = Some u /\ s' = borrowed this book u b s)).
Proof.
  intros H. destruct (inventory s !! book) as [b|] eqn:Hb.
  - exists b. split; [reflexivity|]. destruct (isAvailable b) eqn:Hav.
    + right. split; [reflexivity|].
      destruct (users s !! this) as [u|] eqn:Hu.
      * exists u. split; [reflexivity|].
        rewrite (borrowBook_available _ _ _ _ _ Hu Hb Hav) in H. now inversion H.
      * exfalso. unfold borrowBook in H. revert H. run1.
        unfold getAvailability. rewrite Hav. intros H.
        apply bind_inv in H as (? & ? & H & _).
        apply update_self_inv in H as (u & Hu' & _). congruence.
    + left. split; [reflexivity|].
      rewrite (borrowBook_unavailable _ _ _ _ Hb Hav) in H. now inversion H.
  - exfalso. apply bind_inv in H as (? & ? & H & _).
    apply deref_inv in H as [H _]. congruence.
Qed.

Lemma returnBook_found s this book it u b :
  users s !! this = Some u ->
  find (borrowedBooks u) book = Some it ->
  inventory s !! book = Some b ->
  returnBook this book s = Some (tt, returned this book it u b s).
Proof.
  intros Hu Hit Hb. unfold returnBook.
  run1. rewrite Hit. do 4 run1.
  unfold returned, late_fine, getDueDate, setAvailability; simpl.
  destruct (time_source s (ticks s) >? dueDate b) eqn:Hlate.
  - do 2 run1. simpl. unfold setDueDate, set_fines, set_borrowedBooks; simpl.
    rewrite !list_insert_insert_eq. unfold print, set_inventory; simpl.
    now rewrite <- app_assoc.
  - do 2 run1. simpl. unfold setDueDate, set_borrowedBooks; simpl.
    now rewrite !list_insert_insert_eq.
Qed.

Lemma returnBook_absent s this book u :
  users s !! this = Some u ->
  find (borrowedBooks u) book = None ->
  returnBook this book s =
    Some (tt, mkState (inventory s) (users s) (time_source s) (ticks s)
                      (cout s ++ [NotBorrowed])).
Proof.
  intros Hu Hit. unfold returnBook. run1. now rewrite Hit.
Qed.

Lemma returnBook_inv s this book r s' :
  returnBook this book s = Some (r, s') ->
  exists u, users s !! this = Some u /\
    ((find (borrowedBooks u) book = None /\
      s' = mkState (inventory s) (users s) (time_source s) (ticks s)
                   (cout s ++ [NotBorrowed]))
     \/ (exists it b, find (borrowedBooks u) book = Some it /\
                      inventory s !! book = Some b /\
                      s' = returned this book it u b s)).
Proof.
  intros H. destruct (users s !! this) as [u|] eqn:Hu.
  - exists u. split; [reflexivity|].
    destruct (find (borrowedBooks u) book) as [it|] eqn:Hit.
    + right. destruct (inventory s !! book) as [b|] eqn:Hb.
      * exists it, b. repeat split.
        rewrite (returnBook_found _ _ _ _ _ _ Hu Hit Hb) in H. now inversion H.
      * exfalso. unfold returnBook in H. revert H. run1. rewrite Hit. run1.
        intros H. apply bind_inv in H as (? & ? & H & _).
        apply update_book_inv in H as (b & Hb' & _). simpl in Hb'. congruence.
    + left. split; [reflexivity|].
      rewrite (returnBook_absent _ _ _ _ Hu Hit) in H. now inversion H.
  - exfalso. apply bind_inv in H as (? & ? & H & _).
    apply self_inv in H as [H _]. congruence.
Qed.

Lemma payFines_accepted s this amount u :
  users s !! this = Some u ->
  Qle_bool amount (fines u) = true ->
  payFines this amount s =
    Some (tt, mkState (inventory s)
                      (<[this := mkUser (name u) (userID u) (borrowedBooks u)
                                        (fines u - amount)%Q]> (users s))
                      (time_source s) (ticks s)
                      (cout s ++ [Paid amount (fines u - amount)%Q])).
Proof.
  intros Hu Hle. unfold payFines. run1. rewrite Hle. do 2 run1. reflexivity.
Qed.

Lemma payFines_rejected s this amount u :
  users s !! this = Some u ->
  Qle_bool amount (fines u) = false ->
  payFines this amount s =
    Some (tt, mkState (inventory s) (users s) (time_source s) (ticks s)
                      (cout s ++ [PaymentExceeds])).
Proof.
  intros Hu Hle. unfold payFines. run1. now rewrite Hle.
Qed.

Lemma payFines_inv s this amount r s' :
  payFines this amount s = Some (r, s') ->
  exists u, users s !! this = Some u /\
    ((Qle_bool amount (fines u) = false /\ users s' = users s)
     \/ (Qle_bool amount (fines u) = true /\
         users s' = <[this := mkUser (name u) (userID u) (borrowedBooks u)
                                     (fines u - amount)%Q]> (users s)))
    /\ inventory s' = inventory s /\ time_source s' = time_source s.
Proof.
  intros H. destruct (users s !! this) as [u|] eqn:Hu.
  - exists u. split; [reflexivity|].
    destruct (Qle_bool amount (fines u)) eqn:Hle.
    + rewrite (payFines_accepted _ _ _ _ Hu Hle) in H. inversion H; subst; simpl.
      split; [right|]; now repeat split.
    + rewrite (payFines_rejected _ _ _ _ Hu Hle) in H. inversion H; subst; simpl.
      split; [left|]; now repeat split.
  - exfalso. apply bind_inv in H as (? & ? & H & _).
    apply self_inv in H as [H _]. congruence.
Qed.

Lemma addBook_run s t a i :
  addBook t a i s =
    Some (tt, mkState (inventory s ++ [newBook t a i]) (users s) (time_source s)
                      (ticks s) (cout s ++ [BookAdded])).
Proof. reflexivity. Qed.

Lemma registerUser_run s n id :
  registerUser n id s =
    Some (tt, mkState (inventory s) (users s ++ [newUser n id]) (time_source s)
                      (ticks s) (cout s ++ [UserRegistered])).
Proof. reflexivity. Qed.

Lemma removeBook_run s i :
  removeBook i s =
    match find_if (fun b => String.eqb (getISBN b) i) (inventory s) with
    | Some it => Some (tt, mkState (delete it (inventory s)) (users s) (time_source s)
                                   (ticks s) (cout s ++ [BookRemoved]))
    | None => Some (tt, mkState (inventory s) (users s) (time_source s) (ticks s)
                                (cout s ++ [BookNotFound]))
    end.
Proof.
  unfold removeBook. run1.
  now destruct (find_if _ (inventory s)).
Qed.

(** ** Invariants of runs *)

(** No operation replaces the clock. *)
Lemma run_op_time_source o s r s' :
  run_op o s = Some (r, s') -> time_source s' = time_source s.
Proof.
  destruct o; simpl; intros H.
  - rewrite addBook_run in H. now inversion H.
  - rewrite removeBook_run in H.
    destruct (find_if _ _); now inversion H.
  - rewrite registerUser_run in H. now inversion H.
  - apply borrowBook_inv in H as (b & _ & [[_ ->] | [_ (u & _ & ->)]]); reflexivity.
  - apply returnBook_inv in H as (u & _ & [[_ ->] | (it & b & _ & _ & ->)]); reflexivity.
  - now apply payFines_inv in H as (u & _ & _ & _ & H).
Qed.

(** An invariant of every operation is an invariant of every run. *)
Lemma exec_invariant (I : State -> Prop) :
  (forall o s r s', I s -> run_op o s = Some (r, s') -> I s') ->
  forall ops s r s', I s -> exec ops s = Some (r, s') -> I s'.
Proof.
  intros Hstep ops. induction ops as [|o ops IH]; simpl; intros s r s' Hs H.
  - now inversion H; subst.
  - apply bind_inv in H as (x & s1 & H1 & H2).
    eapply IH; [|exact H2]. eapply Hstep; eassumption.
Qed.

Lemma run_op_books_ok o s r s' :
  books_ok s -> run_op o s = Some (r, s') -> books_ok s'.
Proof.
  intros [Hclk Hs] H. split.
  { now rewrite (run_op_time_source _ _ _ _ H). }
  destruct o; simpl in H.
  - rewrite addBook_run in H. inversion H; subst; simpl.
    apply Forall_app. split; [assumption|].
    constructor; [|constructor]. unfold book_ok; simpl. split; [congruence|discriminate].
  - rewrite removeBook_run in H.
    destruct (find_if _ _); inversion H; subst; simpl; [|assumption].
    now apply Forall_delete.
  - rewrite registerUser_run in H. now inversion H; subst.
  - apply borrowBook_inv in H as (b & Hb & [[_ ->] | [_ (u & _ & ->)]]); simpl; [assumption|].
    apply Forall_insert; [assumption|].
    unfold book_ok; simpl. split; [reflexivity|]. intros _. apply Hclk.
  - apply returnBook_inv in H as (u & _ & [[_ ->] | (it & b & _ & _ & ->)]); simpl;
      [assumption|].
    apply Forall_insert; [assumption|].
    unfold book_ok; simpl. split; [congruence|discriminate].
  - apply payFines_inv in H as (u & _ & _ & -> & _). assumption.
Qed.

Lemma late_fine_pos now due :
  (now >? due) = true -> (0 < late_fine now due)%Q.
Proof.
  intros H. apply Z.gtb_lt in H. unfold late_fine, difftime.
  assert (0 < inject_Z (now - due))%Q.
  { change 0%Q with (inject_Z 0). rewrite <- Zlt_Qlt. lia. }
  unfold Qdiv. change (/ 1)%Q with 1%Q. lra.
Qed.

Lemma run_op_fines_ok o s r s' :
  fines_ok s -> run_op o s = Some (r, s') -> fines_ok s'.
Proof.
  unfold fines_ok. intros Hs H. destruct o; simpl in H.
  - rewrite addBook_run in H. now inversion H; subst.
  - rewrite removeBook_run in H.
    destruct (find_if _ _); now inversion H; subst.
  - rewrite registerUser_run in H. inversion H; subst; simpl.
    apply Forall_app. split; [assumption|].
    constructor; [|constructor]. simpl. lra.
  - apply borrowBook_inv in H as (b & Hb & [[_ ->] | [_ (u & Hu & ->)]]); simpl; [assumption|].
    apply Forall_insert; [assumption|]. simpl.
    eapply (Forall_lookup_1 _ _ _ _ Hs Hu).
  - apply returnBook_inv in H as (u & Hu & [[_ ->] | (it & b & _ & _ & ->)]); simpl;
      [assumption|].
    apply Forall_insert; [assumption|]. simpl.
    pose proof (Forall_lookup_1 _ _ _ _ Hs Hu) as H0. simpl in H0.
    destruct (_ >? _) eqn:Hlate; [|assumption].
    apply late_fine_pos in Hlate. lra.
  - apply payFines_inv in H as (u & Hu & [[_ ->] | [Hle ->]] & _); [assumption|].
    apply Forall_insert; [assumption|]. simpl.
    apply Qle_bool_iff in Hle. lra.
Qed.

(** ** The lending operations *)

(** C2. When the book is available, [borrowBook] appends the pointer to the
    user's list of borrowed books, marks the book unavailable and stores
    the due date [now + 5], 5 seconds being the loan period and [now] the one
    reading of the clock that the call takes. *)
Theorem borrowBook_effect s this book u b :
  users s !! this = Some u ->
  inventory s !! book = Some b ->
  isAvailable b = true ->
  exists s' u' b',
    borrowBook this book s = Some (tt, s') /\
    users s' !! this = Some u' /\
    inventory s' !! book = Some b' /\
    borrowedBooks u' = borrowedBooks u ++ [book] /\
    isAvailable b' = false /\
    dueDate b' = time_source s (ticks s) + 5 /\
    ticks s' = S (ticks s).
Proof.
  intros Hu Hb Hav. eexists _, _, _.
  split; [apply (borrowBook_available _ _ _ _ _ Hu Hb Hav)|].
  unfold borrowed; simpl.
  split; [eapply lookup_written, Hu|].
  split; [eapply lookup_written, Hb|].
  now repeat split.
Qed.


(** C4. Borrowing an available book and returning it when the clock reads at
    most the due date leaves the book available with no due date and the
    user's balance as it was before the borrowing. *)
Theorem borrow_return_round_trip s this book u b :
  users s !! this = Some u ->
  inventory s !! book = Some b ->
  isAvailable b = true ->
  time_source s (S (ticks s)) <= time_source s (ticks s) + 5 ->
  exists s1 s2 u2 b2,
    borrowBook this book s = Some (tt, s1) /\
    returnBook this book s1 = Some (tt, s2) /\
    users s2 !! this = Some u2 /\
    inventory s2 !! book = Some b2 /\
    isAvailable b2 = true /\
    dueDate b2 = 0 /\
    fines u2 = fines u.
Proof.
  intros Hu Hb Hav Htime.
  pose proof (borrowBook_available _ _ _ _ _ Hu Hb Hav) as H1.
  set (s1 := borrowed this book u b s) in *.
  assert (Hu1 : users s1 !! this =
                Some (mkUser (name u) (userID u) (borrowedBooks u ++ [book]) (fines u)))
    by (eapply lookup_written, Hu).
  assert (Hb1 : inventory s1 !! book =
                Some (mkBook (title b) (author b) (ISBN b) false
                             (time_source s (ticks s) + 5)))
    by (eapply lookup_written, Hb).
  destruct (find_present (borrowedBooks u ++ [book]) book) as (it & Hit & _).
  { apply elem_of_app. right. constructor. }
  pose proof (returnBook_found s1 this book it _ _ Hu1 Hit Hb1) as H2.
  eexists _, _, _, _.
  split; [exact H1|]. split; [exact H2|].
  unfold returned; simpl.
  split; [eapply lookup_written, Hu1|].
  split; [eapply lookup_written, Hb1|].
  simpl. repeat split.
  destruct (_ >? _) eqn:Hlate; [|reflexivity].
  apply Z.gtb_lt in Hlate. lia.
Qed.

(** C5. Borrowing a book that is checked out prints "Book is not available."
    and changes nothing else: both vectors, hence every user and every
    book, are as before, and the clock is not read. *)
Theorem borrowBook_unavailable_noop s this book u b :
  users s !! this = Some u ->
  inventory s !! book = Some b ->
  isAvailable b = false ->
  exists s',
    borrowBook this book s = Some (tt, s') /\
    cout s' = cout s ++ [BookNotAvailable] /\
    users s' = users s /\
    inventory s' = inventory s /\
    users s' !! this = Some u /\
    inventory s' !! book = Some b /\
    ticks s' = ticks s /\
    time_source s' = time_source s.
Proof.
  intros Hu Hb Hav. eexists.
  split; [apply (borrowBook_unavailable _ _ _ _ Hb Hav)|].
  simpl. now repeat split.
Qed.

(** C6. Returning a book whose pointer is not in the user's list prints
    "You didn't borrow this book." and changes nothing else, whatever the
    state of the book: pointers are compared, no fine is computed and the
    clock is not read. *)
Theorem returnBook_not_borrowed_noop s this book u :
  users s !! this = Some u ->
  book ∉ borrowedBooks u ->
  exists s',
    returnBook this book s = Some (tt, s') /\
    cout s' = cout s ++ [NotBorrowed] /\
    users s' = users s /\
    inventory s' = inventory s /\
    users s' !! this = Some u /\
    inventory s' !! book = inventory s !! book /\
    ticks s' = ticks s /\
    time_source s' = time_source s.
Proof.
  intros Hu Hin. apply find_absent in Hin. eexists.
  split; [apply (returnBook_absent _ _ _ _ Hu Hin)|].
  simpl. now repeat split.
Qed.

(** C7. A payment above the balance prints "Payment exceeds owed fines." and
    leaves the balance, and everything else, unchanged; a payment equal to
    the balance is accepted and leaves a balance of 0. *)
Theorem payFines_boundary s this amount u :
  users s !! this = Some u ->
  ((fines u < amount)%Q ->
   exists s',
     payFines this amount s = Some (tt, s') /\
     cout s' = cout s ++ [PaymentExceeds] /\
     users s' = users s /\
     inventory s' = inventory s /\
     users s' !! this = Some u) /\
  ((amount == fines u)%Q ->
   exists s' u',
     payFines this amount s = Some (tt, s') /\
     cout s' = cout s ++ [Paid amount (fines u')] /\
     users s' !! this = Some u' /\
     (fines u' == 0)%Q).
Proof.
  intros Hu. split.
  - intros Hgt. assert (Hle : Qle_bool amount (fines u) = false).
    { destruct (Qle_bool amount (fines u)) eqn:E; [|reflexivity].
      apply Qle_bool_iff in E. lra. }
    eexists. split; [apply (payFines_rejected _ _ _ _ Hu Hle)|].
    simpl. now repeat split.
  - intros Heq. assert (Hle : Qle_bool amount (fines u) = true).
    { apply Qle_bool_iff. lra. }
    eexists _, (mkUser (name u) (userID u) (borrowedBooks u) (fines u - amount)%Q).
    split; [apply (payFines_accepted _ _ _ _ Hu Hle)|].
    simpl. split; [reflexivity|].
    split; [eapply lookup_written, Hu|].
    lra.
Qed.

(** C10, as the code has it.  A payment that is zero or negative and not
    above the balance is accepted like any other, and the balance becomes
    the double [fines - amount].  Whether a negative amount raises the
    balance is left to the rounding of that subtraction. *)
Theorem payFines_double_nonpositive (fines amount : float) :
  PrimFloat.leb amount fines = true ->
  PrimFloat.leb amount 0 = true ->
  payFines_double fines amount =
    (PrimFloat.sub fines amount, PaidReport amount (PrimFloat.sub fines amount)).
Proof.
  intros Hle _. unfold payFines_double. now rewrite Hle.
Qed.

(** C10, as stated, fails: a balance of 1e16, which a payment of -1e16
    gives to a new user, is left as it is by a payment of -1, because
    1e16 + 1 is not a double and rounds to 1e16. *)
Lemma payFines_double_absorbs_small_amount :
  fst (payFines_double 0 (-1e16)) = 1e16%float /\
  PrimFloat.leb (-1) 1e16 = true /\
  PrimFloat.ltb (-1) 0 = true /\
  payFines_double 1e16 (-1) = (1e16%float, PaidReport (-1) 1e16) /\
  PrimFloat.ltb 1e16 (fst (payFines_double 1e16 (-1))) = false.
Proof.
  repeat split; vm_compute; reflexivity.
Qed.

(** ** Invariants of the library *)

(** C1. In every state that a run of the operations reaches from the empty
    library (borrowing, returning and the creation of books among them), a
    book has a due date stored, that is [dueDate] is not 0, exactly when it is
    not available; a book that [addBook] creates is available and has no
    due date.  The clock is assumed never to read 5 seconds before the
    Epoch ([clock_ok]). *)
Theorem due_date_iff_checked_out clk ops s :
  clock_ok clk ->
  exec ops (initial clk) = Some (tt, s) ->
  (forall b, b ∈ inventory s -> (dueDate b <> 0 <-> isAvailable b = false)) /\
  (forall t a i, exists s',
      addBook t a i s = Some (tt, s') /\
      inventory s' = inventory s ++ [newBook t a i] /\
      isAvailable (newBook t a i) = true /\
      dueDate (newBook t a i) = 0).
Proof.
  intros Hclk Hrun. split.
  - assert (Hinit : books_ok (initial clk)) by (split; [exact Hclk|constructor]).
    pose proof (exec_invariant books_ok run_op_books_ok _ _ _ _ Hinit Hrun) as [_ Hs].
    intros b Hb. exact (proj1 (Forall_forall _ _) Hs b Hb).
  - intros t a i. eexists. split; [apply addBook_run|]. now repeat split.
Qed.

(** C8. In every state that a run of the operations reaches from the empty
    library, whatever the amounts paid, the balance of every user is not
    negative; a user is registered with balance 0. *)
Theorem fines_never_negative clk ops s :
  exec ops (initial clk) = Some (tt, s) ->
  (forall u, u ∈ users s -> (0 <= fines u)%Q) /\
  (forall n id, fines (newUser n id) = 0%Q).
Proof.
  intros Hrun. split; [|reflexivity].
  assert (Hinit : fines_ok (initial clk)) by constructor.
  pose proof (exec_invariant fines_ok run_op_fines_ok _ _ _ _ Hinit Hrun) as Hs.
  intros u Hu. exact (proj1 (Forall_forall _ _) Hs u Hu).
Qed.

(** ** The catalogue *)

Lemma run_op_unique o s r s' :
  unique_identifiers s ->
  fresh_add o s ->
  run_op o s = Some (r, s') ->
  unique_identifiers s'.
Proof.
  unfold unique_identifiers. intros Hs Hfresh H. destruct o; simpl in H, Hfresh.
  - rewrite addBook_run in H. inversion H; subst; simpl.
    rewrite fmap_app. apply NoDup_app. split; [assumption|]. split.
    + intros x Hx Hin. apply list_elem_of_singleton in Hin. now subst.
    + apply NoDup_singleton.
  - rewrite removeBook_run in H.
    destruct (find_if _ _); inversion H; subst; simpl; [|assumption].
    rewrite list_fmap_delete. exact (sublist_NoDup _ _ Hs (sublist_delete _ _)).
  - rewrite registerUser_run in H. now inversion H; subst.
  - apply borrowBook_inv in H as (b & Hb & [[_ ->] | [_ (u & _ & ->)]]); simpl; [assumption|].
    rewrite list_fmap_insert, list_insert_id; [assumption|].
    now rewrite list_lookup_fmap, Hb.
  - apply returnBook_inv in H as (u & _ & [[_ ->] | (it & b & _ & Hb & ->)]); simpl;
      [assumption|].
    rewrite list_fmap_insert, list_insert_id; [assumption|].
    now rewrite list_lookup_fmap, Hb.
  - apply payFines_inv in H as (u & _ & _ & -> & _). assumption.
Qed.

Lemma exec_unique ops s r s' :
  unique_identifiers s ->
  adds_fresh ops s ->
  exec ops s = Some (r, s') ->
  unique_identifiers s'.
Proof.
  revert s. induction ops as [|o ops IH]; simpl; intros s Hs Hfresh H.
  - now inversion H; subst.
  - destruct Hfresh as [Ho Hrest].
    apply bind_inv in H as (x & s1 & H1 & H2). rewrite H1 in Hrest.
    eapply IH; [|exact Hrest|exact H2].
    eapply run_op_unique; eassumption.
Qed.

(** C9, as the code has it.  [addBook] appends without looking at the
    inventory, so identifiers stay unique only along runs in which every
    [addBook] is given an identifier that no book of the inventory has at
    that moment; [removeBook] never breaks uniqueness. *)
Theorem fresh_identifiers_stay_unique clk ops s :
  adds_fresh ops (initial clk) ->
  exec ops (initial clk) = Some (tt, s) ->
  unique_identifiers s.
Proof.
  intros Hfresh Hrun. eapply exec_unique; [|exact Hfresh|exact Hrun].
  unfold unique_identifiers. simpl. constructor.
Qed.

(** C9, as stated, fails: entering two books under the identifier "42"
    leaves an inventory in which two books share it. *)
Lemma addBook_twice_shares_identifier :
  exec twin_run (initial slow_clock) = Some (tt, twins) /\
  ~ unique_identifiers twins.
Proof.
  split; [reflexivity|].
  unfold unique_identifiers, twins. simpl. intros H.
  apply NoDup_cons in H as [H _]. apply H. constructor.
Qed.

(** ** The theorems at sample inputs *)

Lemma due_date_iff_checked_out_sample :
  clock_ok slow_clock /\
  exec lending_run (initial slow_clock) = Some (tt, fined) /\
  (forall b, b ∈ inventory fined -> (dueDate b <> 0 <-> isAvailable b = false)).
Proof.
  assert (Hclk : clock_ok slow_clock) by (intros k; unfold slow_clock; lia).
  split; [exact Hclk|]. split; [reflexivity|].
  apply (due_date_iff_checked_out slow_clock lending_run fined); [exact Hclk|reflexivity].
Defined.

Lemma borrowBook_effect_sample :
  exists s' u' b',
    borrowBook 0 0 (opened slow_clock) = Some (tt, s') /\
    users s' !! O = Some u' /\
    inventory s' !! O = Some b' /\
    borrowedBooks u' = [O] /\
    isAvailable b' = false /\
    dueDate b' = 105 /\
    ticks s' = 1%nat.
Proof.
  apply (borrowBook_effect (opened slow_clock) 0 0 ada dune); reflexivity.
Defined.


Lemma borrow_return_round_trip_sample :
  quick_clock 1 <= quick_clock 0 + 5 /\
  exists s1 s2 u2 b2,
    borrowBook 0 0 (opened quick_clock) = Some (tt, s1) /\
    returnBook 0 0 s1 = Some (tt, s2) /\
    users s2 !! O = Some u2 /\
    inventory s2 !! O = Some b2 /\
    isAvailable b2 = true /\
    dueDate b2 = 0 /\
    fines u2 = 0%Q.
Proof.
  split; [vm_compute; discriminate|].
  apply (borrow_return_round_trip (opened quick_clock) 0 0 ada dune);
    [reflexivity | reflexivity | reflexivity | vm_compute; discriminate].
Defined.

Lemma borrowBook_unavailable_noop_sample :
  exists s',
    borrowBook 0 0 (lent slow_clock) = Some (tt, s') /\
    cout s' = cout (lent slow_clock) ++ [BookNotAvailable] /\
    users s' = users (lent slow_clock) /\
    inventory s' = inventory (lent slow_clock) /\
    ticks s' = 1%nat.
Proof.
  destruct (borrowBook_unavailable_noop (lent slow_clock) 0 0
              (mkUser "Ada" "U1" [O] 0%Q) (mkBook "Dune" "Herbert" "42" false 105))
    as (s' & Hrun & Hout & Hus & Hinv & _ & _ & Hticks & _);
    [reflexivity | reflexivity | reflexivity |].
  exists s'. repeat split; assumption.
Defined.

Lemma returnBook_not_borrowed_noop_sample :
  exists s',
    returnBook 0 0 (opened slow_clock) = Some (tt, s') /\
    cout s' = cout (opened slow_clock) ++ [NotBorrowed] /\
    users s' = users (opened slow_clock) /\
    inventory s' = inventory (opened slow_clock) /\
    ticks s' = O.
Proof.
  destruct (returnBook_not_borrowed_noop (opened slow_clock) 0 0 ada)
    as (s' & Hrun & Hout & Hus & Hinv & _ & _ & Hticks & _);
    [reflexivity | intros H; inversion H |].
  exists s'. repeat split; assumption.
Defined.

Lemma payFines_boundary_sample :
  (exists s',
     payFines 0 (2001 # 100) fined = Some (tt, s') /\
     cout s' = cout fined ++ [PaymentExceeds] /\
     users s' = users fined) /\
  (exists s' u',
     payFines 0 20 fined = Some (tt, s') /\
     users s' !! O = Some u' /\
     (fines u' == 0)%Q).
Proof.
  split.
  - destruct (payFines_boundary fined 0 (2001 # 100)
                (mkUser "Ada" "U1" [] (0 + inject_Z 10 / 1 * 2)%Q) eq_refl)
      as [Hover _].
    destruct Hover as (s' & Hrun & Hout & Hus & _); [reflexivity|].
    exists s'. repeat split; assumption.
  - destruct (payFines_boundary fined 0 20
                (mkUser "Ada" "U1" [] (0 + inject_Z 10 / 1 * 2)%Q) eq_refl)
      as [_ Hfull].
    destruct Hfull as (s' & u' & Hrun & _ & Hu & Hzero); [reflexivity|].
    exists s', u'. repeat split; assumption.
Defined.

Lemma payFines_double_nonpositive_sample :
  payFines_double 20 (-5) = (25%float, PaidReport (-5) 25).
Proof.
  apply (payFines_double_nonpositive 20 (-5)); vm_compute; reflexivity.
Defined.

Lemma fines_never_negative_sample :
  exec lending_run (initial slow_clock) = Some (tt, fined) /\
  (forall u, u ∈ users fined -> (0 <= fines u)%Q).
Proof.
  split; [reflexivity|].
  apply (fines_never_negative slow_clock lending_run fined). reflexivity.
Defined.

Lemma fresh_identifiers_stay_unique_sample :
  adds_fresh tidy_run (initial slow_clock) /\
  exec tidy_run (initial slow_clock) = Some (tt, tidy) /\
  unique_identifiers tidy.
Proof.
  assert (Hfresh : adds_fresh tidy_run (initial slow_clock)).
  { simpl. repeat split.
    - intros H. inversion H.
    - intros H. apply list_elem_of_singleton in H. discriminate. }
  split; [exact Hfresh|]. split; [reflexivity|].
  apply (fresh_identifiers_stay_unique slow_clock tidy_run tidy); [exact Hfresh|reflexivity].
Defined.

(** ** More on the catalogue *)

Lemma find_if_first {X} (p : X -> bool) (l1 l2 : list X) x :
  (forall y, y ∈ l1 -> p y = false) ->
  p x = true ->
  find_if p (l1 ++ x :: l2) = Some (length l1).
Proof.
  intros Hl1 Hx. induction l1 as [|y l1 IH]; simpl.
  - now rewrite Hx.
  - rewrite (Hl1 y) by constructor.
    rewrite IH; [reflexivity|]. intros z Hz. apply Hl1. now constructor.
Qed.

Lemma eqb_ISBN_false (l : list Book) i :
  (forall b, b ∈ l -> getISBN b <> i) ->
  forall b, b ∈ l -> String.eqb (getISBN b) i = false.
Proof. intros H b Hb. apply String.eqb_neq. now apply H. Qed.

(** X1. [removeBook] with an identifier that no book has prints "Book not
    found in inventory." and changes nothing else. *)
Theorem removeBook_missing s i :
  (forall b, b ∈ inventory s -> getISBN b <> i) ->
  removeBook i s =
    Some (tt, mkState (inventory s) (users s) (time_source s) (ticks s)
                      (cout s ++ [BookNotFound])).
Proof.
  intros H. rewrite removeBook_run.
  replace (find_if _ (inventory s)) with (@None nat); [reflexivity|].
  symmetry. apply find_if_None. now apply eqb_ISBN_false.
Qed.

(** X2. [removeBook] erases the first book that has the identifier and only
    that one: the books before and after it keep their order, later books
    with the same identifier stay.  It looks neither at the availability of
    the book nor at the users, whose lists of borrowed books are as before. *)
Theorem removeBook_first_match s i l1 b l2 :
  inventory s = l1 ++ b :: l2 ->
  (forall x, x ∈ l1 -> getISBN x <> i) ->
  getISBN b = i ->
  removeBook i s =
    Some (tt, mkState (l1 ++ l2) (users s) (time_source s) (ticks s)
                      (cout s ++ [BookRemoved])).
Proof.
  intros Hinv Hl1 Hb. rewrite removeBook_run, Hinv.
  rewrite (find_if_first _ l1 l2 b).
  - now rewrite delete_middle.
  - now apply eqb_ISBN_false.
  - now apply String.eqb_eq.
Qed.

(** X3. Adding a book under an identifier that no book has and removing that
    identifier again gives back the inventory as it was. *)
Theorem addBook_removeBook_round_trip s t a i :
  (forall b, b ∈ inventory s -> getISBN b <> i) ->
  (addBook t a i >> removeBook i) s =
    Some (tt, mkState (inventory s) (users s) (time_source s) (ticks s)
                      (cout s ++ [BookAdded; BookRemoved])).
Proof.
  intros H. erewrite bind_Some by apply addBook_run.
  erewrite removeBook_first_match with (l1 := inventory s) (l2 := []) (b := newBook t a i);
    [|reflexivity|exact H|reflexivity].
  simpl. now rewrite app_nil_r, <- app_assoc.
Qed.

(** X4. When the identifier is already in the inventory, adding a book under
    it and removing the identifier erases the older book; the book just
    added stays, at the end of the inventory. *)
Theorem addBook_removeBook_erases_older s t a i l1 b l2 :
  inventory s = l1 ++ b :: l2 ->
  (forall x, x ∈ l1 -> getISBN x <> i) ->
  getISBN b = i ->
  (addBook t a i >> removeBook i) s =
    Some (tt, mkState (l1 ++ l2 ++ [newBook t a i]) (users s) (time_source s) (ticks s)
                      (cout s ++ [BookAdded; BookRemoved])).
Proof.
  intros Hinv Hl1 Hb. erewrite bind_Some by apply addBook_run.
  erewrite removeBook_first_match with (l1 := l1) (l2 := l2 ++ [newBook t a i]) (b := b);
    [|simpl; rewrite Hinv, <- app_assoc; reflexivity|exact Hl1|exact Hb].
  simpl. now rewrite <- app_assoc.
Qed.

(** X5. [removeBook] makes no check on borrowed books: when a user holds a
    pointer to the last book of the inventory and that book is removed, the
    pointer stays in the user's list and designates no book of the
    inventory any more, so that returning the book or displaying the user
    dereferences a pointer outside the vector. *)
Theorem removeBook_leaves_dangling_pointer s this u i l b :
  users s !! this = Some u ->
  inventory s = l ++ [b] ->
  length l ∈ borrowedBooks u ->
  (forall x, x ∈ l -> getISBN x <> i) ->
  getISBN b = i ->
  exists s',
    removeBook i s = Some (tt, s') /\
    users s' !! this = Some u /\
    inventory s' !! length l = None /\
    returnBook this (length l) s' = None /\
    displayUserInfo u s' = None.
Proof.
  intros Hu Hinv Hheld Hl Hb. eexists.
  split; [apply (removeBook_first_match s i l b [] Hinv Hl Hb)|].
  rewrite app_nil_r. simpl.
  assert (Hnone : l !! length l = None) by (apply lookup_ge_None; lia).
  split; [exact Hu|]. split; [exact Hnone|]. split.
  - destruct (find_present _ _ Hheld) as (it & Hit & _).
    unfold returnBook. run1. rewrite Hit. run1.
    unfold bind at 1. unfold update_book, bind, deref. simpl. now rewrite Hnone.
  - unfold displayUserInfo, getBorrowedBooks, bind.
    replace (displayBorrowed (borrowedBooks u) _) with (@None (list Chunk * State));
      [reflexivity|].
    symmetry. revert Hheld. generalize (borrowedBooks u) as ptrs.
    induction ptrs as [|p ptrs IH]; intros Hin; [inversion Hin|].
    simpl. unfold bind at 1. unfold deref at 1. simpl.
    destruct (l !! p) as [bp|] eqn:Hp; [|reflexivity].
    unfold bind at 1. rewrite IH; [reflexivity|].
    apply elem_of_cons in Hin as [Heq|Hin]; [|assumption].
    exfalso. subst. rewrite Hnone in Hp. discriminate.
Qed.

(** ** More on lending *)

(** X6. A book that has been borrowed cannot be borrowed again, by the same
    user or by another: the second [borrowBook] prints "Book is not
    available.", reads no clock and changes neither vector. *)
Theorem borrowBook_twice s this other book u b :
  users s !! this = Some u ->
  inventory s !! book = Some b ->
  isAvailable b = true ->
  exists s1 s2,
    borrowBook this book s = Some (tt, s1) /\
    borrowBook other book s1 = Some (tt, s2) /\
    cout s2 = cout s1 ++ [BookNotAvailable] /\
    users s2 = users s1 /\
    inventory s2 = inventory s1 /\
    ticks s2 = ticks s1.
Proof.
  intros Hu Hb Hav. eexists _, _.
  split; [apply (borrowBook_available _ _ _ _ _ Hu Hb Hav)|].
  split.
  { eapply borrowBook_unavailable; [eapply lookup_written, Hb|reflexivity]. }
  now repeat split.
Qed.

Lemma not_elem_of_delete {X} (l : list X) it x :
  NoDup l -> l !! it = Some x -> x ∉ delete it l.
Proof.
  intros Hnd Hit. rewrite (delete_Permutation _ _ _ Hit) in Hnd.
  now apply NoDup_cons in Hnd as [Hnot _].
Qed.

(** X7. A book that the user holds once can be returned once: a second
    [returnBook] prints "You didn't borrow this book.", adds no fine and
    changes neither vector. *)
Theorem returnBook_twice s this book u b :
  users s !! this = Some u ->
  NoDup (borrowedBooks u) ->
  book ∈ borrowedBooks u ->
  inventory s !! book = Some b ->
  exists s1 s2,
    returnBook this book s = Some (tt, s1) /\
    returnBook this book s1 = Some (tt, s2) /\
    cout s2 = cout s1 ++ [NotBorrowed] /\
    users s2 = users s1 /\
    inventory s2 = inventory s1 /\
    ticks s2 = ticks s1.
Proof.
  intros Hu Hnd Hin Hb.
  destruct (find_present _ _ Hin) as (it & Hit & Hlook).
  eexists _, _.
  split; [apply (returnBook_found _ _ _ _ _ _ Hu Hit Hb)|].
  split.
  { eapply returnBook_absent; [eapply lookup_written, Hu|].
    simpl. apply find_absent. now apply not_elem_of_delete. }
  now repeat split.
Qed.


(** ** The lending invariant *)

Lemma agree_Permutation h h' inv :
  h ≡ₚ h' -> agree h inv -> agree h' inv.
Proof.
  intros Hp [Hnd Hiff]. split.
  - now rewrite <- Hp.
  - intros p. rewrite <- Hp. apply Hiff.
Qed.

Lemma agree_borrow h inv book b b' :
  agree h inv ->
  inv !! book = Some b ->
  isAvailable b = true ->
  isAvailable b' = false ->
  agree (book :: h) (<[book := b']> inv).
Proof.
  intros [Hnd Hiff] Hb Hav Hav'. split.
  - constructor; [|assumption]. intros Hin.
    apply Hiff in Hin as (b0 & Hb0 & Hav0). congruence.
  - intros p. rewrite elem_of_cons, Hiff.
    destruct (decide (p = book)) as [->|Hne].
    + rewrite (lookup_written _ _ _ _ Hb). split; [|now left]. intros _. eauto.
    + rewrite list_lookup_insert_ne by congruence. split; [|now right].
      now intros [?|?].
Qed.

Lemma agree_return h inv book b b' :
  agree (book :: h) inv ->
  inv !! book = Some b ->
  isAvailable b' = true ->
  agree h (<[book := b']> inv).
Proof.
  intros [Hnd Hiff] Hb Hav'. apply NoDup_cons in Hnd as [Hnot Hnd].
  split; [assumption|]. intros p.
  destruct (decide (p = book)) as [->|Hne].
  - rewrite (lookup_written _ _ _ _ Hb). split; [contradiction|].
    intros (b0 & Hb0 & Hav0). congruence.
  - rewrite list_lookup_insert_ne by congruence. rewrite <- Hiff, elem_of_cons.
    split; [now right|]. now intros [?|?].
Qed.

Lemma agree_add h inv nb :
  agree h inv -> isAvailable nb = true -> agree h (inv ++ [nb]).
Proof.
  intros [Hnd Hiff] Hav. split; [assumption|]. intros p. rewrite Hiff. split.
  - intros (b & Hb & Hb'). exists b. split; [|assumption].
    now apply lookup_app_l_Some.
  - intros (b & Hb & Hb'). exists b. split; [|assumption].
    apply lookup_app_Some in Hb as [Hb|[_ Hb]]; [assumption|].
    apply list_lookup_singleton_Some in Hb as [_ <-]. congruence.
Qed.

(** The pointers held, around the list of one user. *)
Lemma held_around us this u :
  us !! this = Some u ->
  exists A B,
    concat (borrowedBooks <$> us) = A ++ borrowedBooks u ++ B /\
    forall u', concat (borrowedBooks <$> <[this := u']> us) = A ++ borrowedBooks u' ++ B.
Proof.
  intros Hu.
  exists (concat (borrowedBooks <$> take this us)),
         (concat (borrowedBooks <$> drop (S this) us)).
  split.
  - rewrite <- (take_drop_middle us this u Hu) at 1.
    now rewrite fmap_app, concat_app.
  - intros u'. rewrite insert_take_drop by (eapply lookup_lt_Some, Hu).
    now rewrite fmap_app, concat_app.
Qed.

Lemma run_op_lending_ok o s r s' :
  is_remove o = false ->
  lending_ok s ->
  run_op o s = Some (r, s') ->
  lending_ok s'.
Proof.
  unfold lending_ok, held. intros Ho Hs H. destruct o; simpl in H; try discriminate.
  - rewrite addBook_run in H. inversion H; subst; simpl.
    now apply agree_add.
  - rewrite registerUser_run in H. inversion H; subst; simpl.
    rewrite fmap_app, concat_app. simpl. now rewrite app_nil_r.
  - apply borrowBook_inv in H as (b & Hb & [[_ ->] | [Hav (u & Hu & ->)]]); simpl;
      [assumption|].
    destruct (held_around _ _ _ Hu) as (A & B & HA & HB).
    rewrite HB. simpl. rewrite HA in Hs.
    eapply agree_Permutation; [|eapply agree_borrow; [exact Hs|exact Hb|exact Hav|reflexivity]].
    rewrite <- !app_assoc. simpl.
    rewrite (app_assoc A (borrowedBooks u) B).
    rewrite (app_assoc A (borrowedBooks u) (book :: B)).
    apply Permutation_middle.
  - apply returnBook_inv in H as (u & Hu & [[_ ->] | (it & b & Hit & Hb & ->)]); simpl;
      [assumption|].
    destruct (held_around _ _ _ Hu) as (A & B & HA & HB).
    rewrite HB. simpl. rewrite HA in Hs.
    apply find_if_Some in Hit as (x & Hx & Heq & _).
    apply Nat.eqb_eq in Heq. subst x.
    eapply agree_return; [|exact Hb|reflexivity].
    eapply agree_Permutation; [|exact Hs].
    rewrite (delete_Permutation _ _ _ Hx) at 1. simpl.
    symmetry. apply Permutation_middle.
  - destruct (users s !! user) as [u|] eqn:Hu.
    + apply payFines_inv in H as (u0 & Hu0 & Hcase & Hinv & _).
      rewrite Hinv. destruct Hcase as [[_ ->] | [_ ->]]; [assumption|].
      destruct (held_around _ _ _ Hu0) as (A & B & HA & HB).
      rewrite HB. simpl. now rewrite <- HA.
    + apply payFines_inv in H as (u0 & Hu0 & _). congruence.
Qed.

(** The lending invariant along a run that keeps the pointers good. *)
Lemma exec_lending_ok ops s r s' :
  pointers_kept ops s ->
  lending_ok s ->
  exec ops s = Some (r, s') ->
  lending_ok s'.
Proof.
  revert s. induction ops as [|o ops IH]; simpl; intros s Hkept Hs H.
  - now inversion H; subst.
  - destruct Hkept as (Hrem & _ & Hkept).
    apply bind_inv in H as (x & s1 & H1 & H2). rewrite H1 in Hkept.
    eapply IH; [exact Hkept| |exact H2].
    eapply run_op_lending_ok; eassumption.
Qed.

Lemma initial_lending_ok clk : lending_ok (initial clk).
Proof.
  split; [constructor|]. intros p. split.
  - intros H. inversion H.
  - intros (b & Hb & _). discriminate.
Qed.

Lemma elem_of_held s p :
  p ∈ held s <-> exists u, u ∈ users s /\ p ∈ borrowedBooks u.
Proof.
  unfold held. rewrite list_elem_of_In, in_concat. split.
  - intros (l & Hl & Hp). apply list_elem_of_In in Hl, Hp.
    apply list_elem_of_fmap in Hl as (u & -> & Hu). eauto.
  - intros (u & Hu & Hp). exists (borrowedBooks u).
    rewrite <- !list_elem_of_In. split; [|assumption].
    now apply list_elem_of_fmap_2.
Qed.

Lemma NoDup_concat_inv {X} (ls : list (list X)) :
  NoDup (concat ls) ->
  (forall i l, ls !! i = Some l -> NoDup l) /\
  (forall i j l k x, ls !! i = Some l -> ls !! j = Some k -> x ∈ l -> x ∈ k -> i = j).
Proof.
  induction ls as [|l0 ls IH]; simpl; intros Hnd.
  - split; intros; discriminate.
  - apply NoDup_app in Hnd as (Hl0 & Hdisj & Hrest).
    destruct (IH Hrest) as [IH1 IH2].
    assert (Hin : forall j k x, ls !! j = Some k -> x ∈ k -> x ∈ concat ls).
    { intros j k x Hk Hx. apply list_elem_of_In, in_concat. exists k.
      rewrite <- !list_elem_of_In. split; [|assumption].
      apply list_elem_of_lookup. eauto. }
    split.
    + intros [|i] l Hl; simpl in Hl; [now inversion Hl; subst|]. eapply IH1, Hl.
    + intros [|i] [|j] l k x Hl Hk Hxl Hxk; simpl in Hl, Hk.
      * reflexivity.
      * inversion Hl; subst. exfalso. eapply Hdisj; [exact Hxl|]. eapply Hin; eassumption.
      * inversion Hk; subst. exfalso. eapply Hdisj; [exact Hxk|]. eapply Hin; eassumption.
      * f_equal. eapply IH2; eassumption.
Qed.

(** X10. After a run from the empty library that removes no book and adds
    a book only while none is lent, every pointer in a user's list of
    borrowed books designates a book of the inventory, and that book is
    checked out. *)
Theorem borrowed_books_are_checked_out clk ops s :
  pointers_kept ops (initial clk) ->
  exec ops (initial clk) = Some (tt, s) ->
  forall u p, u ∈ users s -> p ∈ borrowedBooks u ->
    exists b, inventory s !! p = Some b /\ isAvailable b = false.
Proof.
  intros Hops Hrun u p Hu Hp.
  destruct (exec_lending_ok _ _ _ _ Hops (initial_lending_ok clk) Hrun) as [_ Hiff].
  apply Hiff, elem_of_held. eauto.
Qed.

(** X11. After such a run, every book that is checked out is in the list of
    borrowed books of some user. *)
Theorem checked_out_books_are_held clk ops s :
  pointers_kept ops (initial clk) ->
  exec ops (initial clk) = Some (tt, s) ->
  forall p b, inventory s !! p = Some b -> isAvailable b = false ->
    exists u, u ∈ users s /\ p ∈ borrowedBooks u.
Proof.
  intros Hops Hrun p b Hb Hav.
  destruct (exec_lending_ok _ _ _ _ Hops (initial_lending_ok clk) Hrun) as [_ Hiff].
  apply elem_of_held, Hiff. eauto.
Qed.

(** X12. After such a run, no book is lent twice: a user's list of borrowed
    books has no pointer twice, and no pointer is in the lists of two
    users. *)
Theorem no_book_held_twice clk ops s :
  pointers_kept ops (initial clk) ->
  exec ops (initial clk) = Some (tt, s) ->
  (forall i u, users s !! i = Some u -> NoDup (borrowedBooks u)) /\
  (forall i j u v p, users s !! i = Some u -> users s !! j = Some v ->
                     p ∈ borrowedBooks u -> p ∈ borrowedBooks v -> i = j).
Proof.
  intros Hops Hrun.
  destruct (exec_lending_ok _ _ _ _ Hops (initial_lending_ok clk) Hrun) as [Hnd _].
  destruct (NoDup_concat_inv _ Hnd) as [H1 H2]. split.
  - intros i u Hu. apply (H1 i). now rewrite list_lookup_fmap, Hu.
  - intros i j u v p Hu Hv Hpu Hpv.
    apply (H2 i j (borrowedBooks u) (borrowedBooks v) p); try assumption.
    + now rewrite list_lookup_fmap, Hu.
    + now rewrite list_lookup_fmap, Hv.
Qed.

(** ** The menu loop *)

Lemma exec_app ops1 ops2 s s1 s2 :
  exec ops1 s = Some (tt, s1) ->
  exec ops2 s1 = Some (tt, s2) ->
  exec (ops1 ++ ops2) s = Some (tt, s2).
Proof.
  revert s. induction ops1 as [|o ops1 IH]; simpl; intros s H1 H2.
  - now inversion H1; subst.
  - apply bind_inv in H1 as ([] & s0 & Ho & H1).
    erewrite bind_Some by exact Ho. now apply IH.
Qed.

Lemma displayBorrowed_state ptrs s out s' :
  displayBorrowed ptrs s = Some (out, s') -> s' = s.
Proof.
  revert out s'. induction ptrs as [|p ptrs IH]; simpl; intros out s' H.
  - now inversion H.
  - apply bind_inv in H as (b & s1 & Hb & H). apply deref_inv in Hb as [_ ->].
    apply bind_inv in H as (out' & s2 & Hrest & H). apply IH in Hrest as ->.
    now inversion H.
Qed.

Lemma list_borrowed_state ptrs i s out s' :
  list_borrowed i ptrs s = Some (out, s') -> s' = s.
Proof.
  revert i out s'. induction ptrs as [|p ptrs IH]; simpl; intros i out s' H.
  - now inversion H.
  - apply bind_inv in H as (b & s1 & Hb & H). apply deref_inv in Hb as [_ ->].
    apply bind_inv in H as (out' & s2 & Hrest & H). apply IH in Hrest as ->.
    now inversion H.
Qed.

(** What an iteration of the loop does to the memory: nothing, or one
    operation.  The operation is a removal only for choice 2, and a return
    is always of a pointer taken from the user's own list. *)
Lemma iteration_run_op inp s out s' :
  iteration inp s = Some (out, s') ->
  s' = s \/
  exists o, run_op o s = Some (tt, s') /\ is_remove o = is_choice2 inp /\
            forall ui book, o = ReturnBook ui book ->
              exists u, users s !! ui = Some u /\ book ∈ borrowedBooks u.
Proof.
  intros H. apply bind_inv in H as (out0 & s0 & H & Hret).
  inversion Hret; subst; clear Hret.
  destruct inp as [t a i|i| |n id|ui bi|ui bi|ui amount|ui| |]; simpl in *.
  - right. apply bind_inv in H as ([] & s1 & H & Hret). inversion Hret; subst.
    exists (AddBook t a i). repeat split; [assumption|discriminate].
  - right. apply bind_inv in H as ([] & s1 & H & Hret). inversion Hret; subst.
    exists (RemoveBook i). repeat split; [assumption|discriminate].
  - left. now inversion H.
  - right. apply bind_inv in H as ([] & s1 & H & Hret). inversion Hret; subst.
    exists (RegisterUser n id). repeat split; [assumption|discriminate].
  - unfold case5 in H. apply bind_inv in H as (s0 & s1 & Hget & H).
    inversion Hget; subst s0 s1; clear Hget.
    destruct (_ || _); [left; now inversion H|].
    destruct (_ && _); [|left; now inversion H].
    apply bind_inv in H as ([] & s1 & H & Hret). inversion Hret; subst.
    right. exists (BorrowBook ui bi). repeat split; [assumption|discriminate].
  - unfold case6 in H. apply bind_inv in H as (s0 & s1 & Hget & H).
    inversion Hget; subst s0 s1; clear Hget.
    destruct (vec_empty (users s)); [left; now inversion H|].
    destruct (length (users s) <=? ui)%nat; [left; now inversion H|].
    apply bind_inv in H as (u & s1 & Hu & H). apply self_inv in Hu as [Hu ->].
    destruct (vec_empty (getBorrowedBooks u)); [left; now inversion H|].
    apply bind_inv in H as (titles & s1 & Ht & H). apply list_borrowed_state in Ht as ->.
    destruct (getBorrowedBooks u !! bi) as [book|] eqn:Hbook; [|left; now inversion H].
    apply bind_inv in H as ([] & s1 & H & Hret). inversion Hret; subst.
    right. exists (ReturnBook ui book). repeat split; [assumption|].
    intros ui' book' Heq. inversion Heq; subst. exists u. split; [assumption|].
    apply list_elem_of_lookup. eauto.
  - unfold case7 in H. apply bind_inv in H as (s0 & s1 & Hget & H).
    inversion Hget; subst s0 s1; clear Hget.
    destruct (vec_empty (users s)); [left; now inversion H|].
    destruct (ui <? length (users s))%nat; [|left; now inversion H].
    apply bind_inv in H as ([] & s1 & H & Hret). inversion Hret; subst.
    right. exists (PayFines ui amount). repeat split; [assumption|discriminate].
  - left. unfold case8 in H. apply bind_inv in H as (s0 & s1 & Hget & H).
    inversion Hget; subst s0 s1; clear Hget.
    destruct (vec_empty (users s)); [now inversion H|].
    destruct (ui <? length (users s))%nat; [|now inversion H].
    apply bind_inv in H as (u & s1 & Hu & H). apply self_inv in Hu as [Hu ->].
    apply bind_inv in H as (info & s1 & Hi & H). inversion H; subst.
    unfold displayUserInfo in Hi. apply bind_inv in Hi as (o & s2 & Hd & Hi).
    apply displayBorrowed_state in Hd as ->. now inversion Hi.
  - left. now inversion H.
  - left. now inversion H.
Qed.

Lemma main_loop_cons inp rest s out s' :
  main_loop (inp :: rest) s = Some (out, s') ->
  exists out1 s1,
    iteration inp s = Some (out1, s1) /\
    (s' = s1 \/ exists out2, main_loop rest s1 = Some (out2, s')).
Proof.
  simpl. intros H. apply bind_inv in H as (out1 & s1 & Hit & H).
  exists out1, s1. split; [assumption|].
  destruct inp; try (right; apply bind_inv in H as (out2 & s2 & Hrest & Hret);
                     inversion Hret; subst; eauto).
  left. now inversion H.
Qed.

(** X13. Whatever the inputs, the memory that [main] reaches is reached by
    a run of the operations of the classes (adding, removing, registering,
    borrowing, returning, paying); the run removes no book unless choice 2
    is among the inputs. *)
Theorem main_loop_is_a_run inputs s out s' :
  main_loop inputs s = Some (out, s') ->
  exists ops,
    exec ops s = Some (tt, s') /\
    (forallb (fun inp => negb (is_choice2 inp)) inputs = true ->
     forallb (fun o => negb (is_remove o)) ops = true).
Proof.
  revert s out. induction inputs as [|inp rest IH]; intros s out H.
  - inversion H; subst. now exists [].
  - apply main_loop_cons in H as (out1 & s1 & Hit & Hrest).
    assert (Hone : exists ops1, exec ops1 s = Some (tt, s1) /\
                     (is_choice2 inp = false ->
                      forallb (fun o => negb (is_remove o)) ops1 = true)).
    { apply iteration_run_op in Hit as [->|(o & Ho & Hrem & _)].
      - now exists [].
      - exists [o]. split.
        + simpl. now erewrite bind_Some by exact Ho.
        + intros Hc. simpl. now rewrite Hrem, Hc. }
    destruct Hone as (ops1 & Hrun1 & Hok1).
    destruct Hrest as [->|(out2 & Hrest)].
    + exists ops1. split; [assumption|]. simpl. intros Hall.
      apply andb_true_iff in Hall as [Hinp _]. apply Hok1.
      now apply negb_true_iff.
    + apply IH in Hrest as (ops2 & Hrun2 & Hok2).
      exists (ops1 ++ ops2). split; [eapply exec_app; eassumption|].
      simpl. intros Hall. apply andb_true_iff in Hall as [Hinp Hall].
      rewrite forallb_app, Hok1, Hok2; [reflexivity|assumption|].
      now apply negb_true_iff.
Qed.

(** X14. In every memory that [main] reaches, whatever the inputs, no
    balance of fines is negative, and (on a clock that never reads 5
    seconds before the Epoch) a book has a due date stored exactly when it
    is not available. *)
Theorem main_keeps_invariants clk inputs out s :
  main clk inputs = Some (out, s) ->
  (forall u, u ∈ users s -> (0 <= fines u)%Q) /\
  (clock_ok clk ->
   forall b, b ∈ inventory s -> (dueDate b <> 0 <-> isAvailable b = false)).
Proof.
  intros H. apply main_loop_is_a_run in H as (ops & Hrun & _). split.
  - assert (Hinit : fines_ok (initial clk)) by constructor.
    pose proof (exec_invariant fines_ok run_op_fines_ok _ _ _ _ Hinit Hrun) as Hs.
    intros u Hu. exact (proj1 (Forall_forall _ _) Hs u Hu).
  - intros Hclk.
    assert (Hinit : books_ok (initial clk)) by (split; [exact Hclk|constructor]).
    pose proof (exec_invariant books_ok run_op_books_ok _ _ _ _ Hinit Hrun) as [_ Hs].
    intros b Hb. exact (proj1 (Forall_forall _ _) Hs b Hb).
Qed.

Lemma displayBorrowed_defined ptrs s :
  (forall p, p ∈ ptrs -> is_Some (inventory s !! p)) ->
  exists books,
    Forall2 (fun p b => inventory s !! p = Some b) ptrs books /\
    displayBorrowed ptrs s =
      Some (concat ((fun b => Book_displayInfo b ++ [dashes]) <$> books), s).
Proof.
  induction ptrs as [|p ptrs IH]; intros Hvalid.
  - exists []. split; [constructor|reflexivity].
  - destruct (Hvalid p) as [b Hb]; [constructor|].
    destruct IH as (books & Hall & Hrun).
    { intros q Hq. apply Hvalid. now constructor. }
    exists (b :: books). split; [now constructor|].
    simpl. erewrite bind_Some by (apply deref_Some, Hb).
    erewrite bind_Some by exact Hrun.
    reflexivity.
Qed.

Lemma list_borrowed_defined ptrs i s :
  (forall p, p ∈ ptrs -> is_Some (inventory s !! p)) ->
  exists out, list_borrowed i ptrs s = Some (out, s).
Proof.
  revert i. induction ptrs as [|p ptrs IH]; intros i Hvalid.
  - now exists [].
  - destruct (Hvalid p) as [b Hb]; [constructor|].
    destruct (IH (S i)) as (out & Hrun).
    { intros q Hq. apply Hvalid. now constructor. }
    eexists. simpl. erewrite bind_Some by (apply deref_Some, Hb).
    erewrite bind_Some by exact Hrun. reflexivity.
Qed.

Lemma borrowBook_defined s this book :
  is_Some (users s !! this) ->
  is_Some (inventory s !! book) ->
  exists s', borrowBook this book s = Some (tt, s').
Proof.
  intros [u Hu] [b Hb]. destruct (isAvailable b) eqn:Hav.
  - eexists. apply (borrowBook_available _ _ _ _ _ Hu Hb Hav).
  - eexists. apply (borrowBook_unavailable _ _ _ _ Hb Hav).
Qed.

Lemma payFines_defined s this amount :
  is_Some (users s !! this) ->
  exists s', payFines this amount s = Some (tt, s').
Proof.
  intros [u Hu]. destruct (Qle_bool amount (fines u)) eqn:Hle.
  - eexists. apply (payFines_accepted _ _ _ _ Hu Hle).
  - eexists. apply (payFines_rejected _ _ _ _ Hu Hle).
Qed.

Lemma vec_empty_false {X} (v : list X) :
  vec_empty v = false -> (0 < length v)%nat.
Proof. destruct v; [discriminate|simpl; lia]. Qed.

(** An iteration has a defined behaviour when every pointer that a user
    holds designates a book of the inventory. *)
Lemma iteration_defined inp s :
  (forall p, p ∈ held s -> is_Some (inventory s !! p)) ->
  exists out s', iteration inp s = Some (out, s').
Proof.
  intros Hvalid.
  assert (Hptrs : forall ui u, users s !! ui = Some u ->
                    forall p, p ∈ borrowedBooks u -> is_Some (inventory s !! p)).
  { intros ui u Hu p Hp. apply Hvalid, elem_of_held. exists u.
    split; [|assumption]. apply list_elem_of_lookup. eauto. }
  cut (exists out s', match inp with
                      | Choice1 t a i => case1 t a i
                      | Choice2 i => case2 i
                      | Choice3 => case3
                      | Choice4 n id => case4 n id
                      | Choice5 ui bi => case5 ui bi
                      | Choice6 ui bi => case6 ui bi
                      | Choice7 ui amount => case7 ui amount
                      | Choice8 ui => case8 ui
                      | Choice0 => ret [Str ("Exiting..." ++ nl)]
                      | ChoiceOther => ret [Str ("Invalid choice. Try again." ++ nl)]
                      end s = Some (out, s')).
  { intros (out & s' & H). unfold iteration. erewrite bind_Some by exact H.
    now eexists _, _. }
  destruct inp as [t a i|i| |n id|ui bi|ui bi|ui amount|ui| |];
    try (now eexists _, _).
  - unfold case2, bind. rewrite removeBook_run.
    destruct (find_if _ _); now eexists _, _.
  - unfold case5. erewrite bind_Some by reflexivity.
    destruct (_ || _); [now eexists _, _|].
    destruct (_ && _) eqn:Hguard; [|now eexists _, _].
    apply andb_true_iff in Hguard as [Hu Hb].
    apply Nat.ltb_lt, lookup_lt_is_Some in Hu, Hb.
    destruct (borrowBook_defined s ui bi Hu Hb) as (s' & Hrun).
    erewrite bind_Some by exact Hrun. now eexists _, _.
  - unfold case6. erewrite bind_Some by reflexivity.
    destruct (vec_empty (users s)); [now eexists _, _|].
    destruct (length (users s) <=? ui)%nat eqn:Hguard; [now eexists _, _|].
    apply Nat.leb_gt, lookup_lt_is_Some in Hguard as [u Hu].
    erewrite bind_Some by (apply self_Some, Hu).
    destruct (vec_empty (getBorrowedBooks u)); [now eexists _, _|].
    destruct (list_borrowed_defined (getBorrowedBooks u) 0 s (Hptrs ui u Hu))
      as (titles & Htitles).
    erewrite bind_Some by exact Htitles.
    destruct (getBorrowedBooks u !! bi) as [book|] eqn:Hbook; [|now eexists _, _].
    assert (Hin : book ∈ borrowedBooks u) by (apply list_elem_of_lookup; eauto).
    destruct (find_present _ _ Hin) as (it & Hit & _).
    destruct (Hptrs ui u Hu book Hin) as [b Hb].
    erewrite bind_Some by (apply (returnBook_found _ _ _ _ _ _ Hu Hit Hb)).
    now eexists _, _.
  - unfold case7. erewrite bind_Some by reflexivity.
    destruct (vec_empty (users s)); [now eexists _, _|].
    destruct (ui <? length (users s))%nat eqn:Hguard; [|now eexists _, _].
    apply Nat.ltb_lt, lookup_lt_is_Some in Hguard.
    destruct (payFines_defined s ui amount Hguard) as (s' & Hrun).
    erewrite bind_Some by exact Hrun. now eexists _, _.
  - unfold case8. erewrite bind_Some by reflexivity.
    destruct (vec_empty (users s)); [now eexists _, _|].
    destruct (ui <? length (users s))%nat eqn:Hguard; [|now eexists _, _].
    apply Nat.ltb_lt, lookup_lt_is_Some in Hguard as [u Hu].
    erewrite bind_Some by (apply self_Some, Hu).
    destruct (displayBorrowed_defined _ s (Hptrs ui u Hu)) as (books & _ & Hrun).
    unfold displayUserInfo, getBorrowedBooks.
    erewrite (bind_Some (bind _ _)); [now eexists _, _|].
    erewrite bind_Some by exact Hrun. reflexivity.
Qed.

Lemma lending_ok_valid s :
  lending_ok s -> forall p, p ∈ held s -> is_Some (inventory s !! p).
Proof.
  intros [_ Hiff] p Hp. apply Hiff in Hp as (b & Hb & _). eauto.
Qed.

Lemma main_loop_defined inputs s :
  quiet_session inputs s ->
  lending_ok s ->
  exists out s', main_loop inputs s = Some (out, s') /\ lending_ok s'.
Proof.
  revert s. induction inputs as [|inp rest IH]; intros s Hquiet Hs.
  - exists [], s. now split.
  - destruct Hquiet as (Hinp & _ & Hquiet).
    destruct (iteration_defined inp s (lending_ok_valid s Hs)) as (out1 & s1 & Hit).
    rewrite Hit in Hquiet.
    assert (Hs1 : lending_ok s1).
    { destruct (iteration_run_op _ _ _ _ Hit) as [->|(o & Ho & Hrem & _)]; [assumption|].
      eapply run_op_lending_ok; [|exact Hs|exact Ho]. congruence. }
    destruct (IH s1 Hquiet Hs1) as (out2 & s2 & Hrest & Hs2).
    simpl. rewrite (bind_Some _ _ _ _ _ Hit).
    destruct inp;
      try (rewrite (bind_Some _ _ _ _ _ Hrest); exists (out1 ++ out2), s2; now split).
    exists out1, s1. now split.
Qed.

(** X15. On inputs that never take choice 2 and take choice 1 only while
    no book is lent, [main] never dereferences a pointer outside the
    inventory or a user outside [users]: every iteration has a defined
    behaviour, and the memory reached satisfies the lending invariant. *)
Theorem main_defined_without_removal clk inputs :
  quiet_session inputs (initial clk) ->
  exists out s, main clk inputs = Some (out, s) /\ lending_ok s.
Proof.
  intros Hquiet. apply main_loop_defined; [assumption|apply initial_lending_ok].
Qed.

Lemma run_op_never_not_borrowed o s r s' :
  (forall ui book, o = ReturnBook ui book ->
     exists u, users s !! ui = Some u /\ book ∈ borrowedBooks u) ->
  run_op o s = Some (r, s') ->
  NotBorrowed ∉ cout s ->
  NotBorrowed ∉ cout s'.
Proof.
  intros Hret H Hs.
  assert (Hsnoc : forall l, NotBorrowed ∉ l -> NotBorrowed ∉ cout s ++ l).
  { intros l Hl Hin. apply elem_of_app in Hin as [?|?]; contradiction. }
  destruct o as [t a i|i|n id|ui book|ui book|ui amount]; simpl in H.
  - rewrite addBook_run in H. inversion H; subst; simpl.
    apply Hsnoc. intros Hin. apply list_elem_of_singleton in Hin. discriminate.
  - rewrite removeBook_run in H.
    destruct (find_if _ _); inversion H; subst; simpl;
      apply Hsnoc; intros Hin; apply list_elem_of_singleton in Hin; discriminate.
  - rewrite registerUser_run in H. inversion H; subst; simpl.
    apply Hsnoc. intros Hin. apply list_elem_of_singleton in Hin. discriminate.
  - apply borrowBook_inv in H as (b & _ & [[_ ->] | [_ (u & _ & ->)]]); simpl;
      apply Hsnoc; intros Hin; apply list_elem_of_singleton in Hin; discriminate.
  - destruct (Hret ui book eq_refl) as (u & Hu & Hin).
    apply returnBook_inv in H as (u' & Hu' & [[Habs _] | (it & b & _ & _ & ->)]).
    + exfalso. assert (u' = u) by congruence. subst u'.
      apply find_absent in Habs. contradiction.
    + simpl. apply Hsnoc. destruct (_ >? _); simpl; intros Hbad.
      * apply elem_of_cons in Hbad as [?|Hbad]; [discriminate|].
        apply list_elem_of_singleton in Hbad. discriminate.
      * apply list_elem_of_singleton in Hbad. discriminate.
  - destruct (users s !! ui) as [u|] eqn:Hu.
    + destruct (Qle_bool amount (fines u)) eqn:Hle.
      * rewrite (payFines_accepted _ _ _ _ Hu Hle) in H. inversion H; subst; simpl.
        apply Hsnoc. intros Hin. apply list_elem_of_singleton in Hin. discriminate.
      * rewrite (payFines_rejected _ _ _ _ Hu Hle) in H. inversion H; subst; simpl.
        apply Hsnoc. intros Hin. apply list_elem_of_singleton in Hin. discriminate.
    + apply payFines_inv in H as (u0 & Hu0 & _). congruence.
Qed.

(** X16. Through the menu, a user can only return a book picked from the
    user's own list of borrowed books, so [main] never prints "You didn't
    borrow this book.", whatever the inputs. *)
Theorem main_never_says_not_borrowed clk inputs out s :
  main clk inputs = Some (out, s) ->
  NotBorrowed ∉ cout s.
Proof.
  unfold main.
  assert (Hinit : NotBorrowed ∉ cout (initial clk)) by (intros H; inversion H).
  revert Hinit. generalize (initial clk) as s0. revert out.
  induction inputs as [|inp rest IH]; intros out s0 Hs0 H.
  - now inversion H; subst.
  - apply main_loop_cons in H as (out1 & s1 & Hit & Hrest).
    assert (Hs1 : NotBorrowed ∉ cout s1).
    { apply iteration_run_op in Hit as [->|(o & Ho & _ & Hret)]; [assumption|].
      eapply run_op_never_not_borrowed; eassumption. }
    destruct Hrest as [->|(out2 & Hrest)]; [assumption|].
    eapply IH; eassumption.
Qed.

(** X17. The loop ends with the iteration that reads choice 0: whatever
    follows it in the input has no effect on the memory or on the output. *)
Theorem main_loop_stops_at_exit pre rest s :
  main_loop (pre ++ Choice0 :: rest) s = main_loop (pre ++ [Choice0]) s.
Proof.
  revert s. induction pre as [|inp pre IH]; intros s; [reflexivity|].
  simpl. unfold bind.
  destruct (iteration inp s) as [[out1 s1]|]; [|reflexivity].
  destruct inp; try reflexivity; now rewrite IH.
Qed.

(** X18. A user index outside [users] is refused by cases 5, 6, 7 and 8:
    the iteration has a defined behaviour and leaves the memory, the
    messages of the methods included, as it was. *)
Theorem user_index_out_of_range s ui bi amount :
  (length (users s) <= ui)%nat ->
  (exists out, iteration (Choice5 ui bi) s = Some (out, s)) /\
  (exists out, iteration (Choice6 ui bi) s = Some (out, s)) /\
  (exists out, iteration (Choice7 ui amount) s = Some (out, s)) /\
  (exists out, iteration (Choice8 ui) s = Some (out, s)).
Proof.
  intros Hge.
  assert (Hlt : (ui <? length (users s))%nat = false) by (apply Nat.ltb_ge; lia).
  assert (Hle : (length (users s) <=? ui)%nat = true) by (apply Nat.leb_le; lia).
  unfold iteration, case5, case6, case7, case8, bind, get, ret. simpl.
  rewrite Hlt, Hle. simpl.
  repeat split.
  - destruct (_ || _); now eexists.
  - destruct (vec_empty (users s)); now eexists.
  - destruct (vec_empty (users s)); now eexists.
  - destruct (vec_empty (users s)); now eexists.
Qed.

(** X19. A book index outside the inventory is refused by case 5, and so is
    every selection while the inventory is empty: the memory stays as it
    was. *)
Theorem book_index_out_of_range s ui bi :
  (length (inventory s) <= bi)%nat ->
  exists out, iteration (Choice5 ui bi) s = Some (out, s).
Proof.
  intros Hge.
  assert (Hlt : (bi <? length (inventory s))%nat = false) by (apply Nat.ltb_ge; lia).
  unfold iteration, case5, bind, get, ret. simpl.
  rewrite Hlt, andb_false_r.
  destruct (_ || _); now eexists.
Qed.

Lemma find_NoDup (l : list BookPtr) k book :
  NoDup l -> l !! k = Some book -> find l book = Some k.
Proof.
  intros Hnd Hk.
  destruct (find_present l book) as (it & Hit & Hlook).
  { apply list_elem_of_lookup. eauto. }
  rewrite Hit. f_equal. eapply NoDup_lookup; eassumption.
Qed.

(** X20. Case 6 returns the book that the user selects: when the user's
    list has no pointer twice and its pointers designate books of the
    inventory, selecting position [k] erases exactly that position from the
    list, and the book it pointed to is available again with no due date. *)
Theorem menu_returns_selected_book s ui k u book :
  users s !! ui = Some u ->
  NoDup (borrowedBooks u) ->
  (forall p, p ∈ borrowedBooks u -> is_Some (inventory s !! p)) ->
  borrowedBooks u !! k = Some book ->
  exists out s' u' b',
    iteration (Choice6 ui k) s = Some (out, s') /\
    users s' !! ui = Some u' /\
    borrowedBooks u' = delete k (borrowedBooks u) /\
    inventory s' !! book = Some b' /\
    isAvailable b' = true /\
    dueDate b' = 0.
Proof.
  intros Hu Hnd Hvalid Hk.
  assert (Hin : book ∈ borrowedBooks u) by (apply list_elem_of_lookup; eauto).
  destruct (Hvalid book Hin) as [b Hb].
  pose proof (find_NoDup _ _ _ Hnd Hk) as Hfind.
  destruct (list_borrowed_defined (borrowedBooks u) 0 s Hvalid) as (titles & Htitles).
  assert (Hne : vec_empty (users s) = false).
  { destruct (users s); [discriminate|reflexivity]. }
  assert (Hguard : (length (users s) <=? ui)%nat = false).
  { apply Nat.leb_gt. eapply lookup_lt_Some, Hu. }
  assert (Hbb : vec_empty (getBorrowedBooks u) = false).
  { unfold getBorrowedBooks. destruct (borrowedBooks u); [discriminate|reflexivity]. }
  eexists _, _, _, _. split.
  - unfold iteration, case6. erewrite bind_Some; [reflexivity|].
    erewrite bind_Some by reflexivity. rewrite Hne, Hguard.
    erewrite bind_Some by (apply self_Some, Hu). rewrite Hbb.
    erewrite bind_Some by exact Htitles.
    unfold getBorrowedBooks. rewrite Hk.
    erewrite bind_Some by (apply (returnBook_found _ _ _ _ _ _ Hu Hfind Hb)).
    reflexivity.
  - unfold returned; simpl.
    split; [eapply lookup_written, Hu|].
    split; [reflexivity|].
    split; [eapply lookup_written, Hb|].
    now split.
Qed.

(** X21. After a run from the empty library that removes no book and adds
    a book only while none is lent,
    [displayUserInfo] has a defined behaviour for every registered user,
    changes nothing, and prints the user's record followed by one record
    for each borrowed book, in the order of the list; each of these books
    is checked out, so each record reads "Checked Out". *)
Theorem displayUserInfo_after_run clk ops s i u :
  pointers_kept ops (initial clk) ->
  exec ops (initial clk) = Some (tt, s) ->
  users s !! i = Some u ->
  exists books,
    displayUserInfo u s =
      Some (User_displayInfo u ++ Str ("Borrowed Books:" ++ nl)
              :: concat ((fun b => Book_displayInfo b ++ [dashes]) <$> books), s) /\
    Forall2 (fun p b => inventory s !! p = Some b) (borrowedBooks u) books /\
    Forall (fun b => isAvailable b = false) books.
Proof.
  intros Hops Hrun Hu.
  destruct (exec_lending_ok _ _ _ _ Hops (initial_lending_ok clk) Hrun) as [_ Hiff].
  assert (Hout : forall p, p ∈ borrowedBooks u ->
                   exists b, inventory s !! p = Some b /\ isAvailable b = false).
  { intros p Hp. apply Hiff, elem_of_held. exists u. split; [|assumption].
    apply list_elem_of_lookup. eauto. }
  destruct (displayBorrowed_defined (borrowedBooks u) s) as (books & Hall & Hdisp).
  { intros p Hp. destruct (Hout p Hp) as (b & Hb & _). eauto. }
  exists books. split; [|split; [assumption|]].
  - unfold displayUserInfo, getBorrowedBooks. now erewrite bind_Some by exact Hdisp.
  - clear Hdisp. induction Hall as [|p b ptrs books Hp Hall IH]; constructor.
    + destruct (Hout p) as (b' & Hb' & Hav); [constructor|]. congruence.
    + apply IH. intros q Hq. apply Hout. now constructor.
Qed.

(** X22. [displayInventory] prints the heading and then one record for each
    book in the order of the inventory, so that the record of a book just
    added, which reads "Available", comes last. *)
Theorem displayInventory_after_addBook s t a i :
  exists s',
    addBook t a i s = Some (tt, s') /\
    displayInventory (inventory s') =
      displayInventory (inventory s)
      ++ [Str "Title: "; Str t; Str (nl ++ "Author: "); Str a;
          Str (nl ++ "ISBN: "); Str i; Str (nl ++ "Status: ");
          Str "Available"; Str nl; dashes].
Proof.
  eexists. split; [apply addBook_run|]. simpl.
  unfold displayInventory. now rewrite fmap_app, concat_app.
Qed.

(** ** The further theorems at sample inputs *)

(** Evaluates the condition on a sample run, step by step. *)
Ltac run_is_kept :=
  vm_compute; repeat split;
  try reflexivity; intros Hadd; try discriminate Hadd; reflexivity.

Lemma removeBook_missing_sample :
  removeBook "99" (opened slow_clock) =
    Some (tt, mkState [dune] [ada] slow_clock 0
                      [UserRegistered; BookAdded; BookNotFound]).
Proof.
  apply (removeBook_missing (opened slow_clock) "99").
  intros b Hb. apply list_elem_of_singleton in Hb. subst b. discriminate.
Defined.

Lemma removeBook_first_match_sample :
  removeBook "42" twins =
    Some (tt, mkState [newBook "Emma" "Austen" "42"] [] slow_clock 0
                      [BookAdded; BookAdded; BookRemoved]).
Proof.
  apply (removeBook_first_match twins "42" [] (newBook "Dune" "Herbert" "42")
           [newBook "Emma" "Austen" "42"]); [reflexivity| |reflexivity].
  intros x Hx. inversion Hx.
Defined.

Lemma addBook_removeBook_round_trip_sample :
  (addBook "Emma" "Austen" "43" >> removeBook "43") (opened slow_clock) =
    Some (tt, mkState [dune] [ada] slow_clock 0
                      [UserRegistered; BookAdded; BookAdded; BookRemoved]).
Proof.
  apply (addBook_removeBook_round_trip (opened slow_clock) "Emma" "Austen" "43").
  intros b Hb. apply list_elem_of_singleton in Hb. subst b. discriminate.
Defined.

Lemma addBook_removeBook_erases_older_sample :
  (addBook "Emma" "Austen" "42" >> removeBook "42") (opened slow_clock) =
    Some (tt, mkState [newBook "Emma" "Austen" "42"] [ada] slow_clock 0
                      [UserRegistered; BookAdded; BookAdded; BookRemoved]).
Proof.
  apply (addBook_removeBook_erases_older (opened slow_clock) "Emma" "Austen" "42"
           [] dune []); [reflexivity| |reflexivity].
  intros x Hx. inversion Hx.
Defined.

Lemma removeBook_leaves_dangling_pointer_sample :
  exists s',
    removeBook "42" (lent slow_clock) = Some (tt, s') /\
    users s' !! O = Some (mkUser "Ada" "U1" [O] 0%Q) /\
    inventory s' !! O = None /\
    returnBook 0 0 s' = None /\
    displayUserInfo (mkUser "Ada" "U1" [O] 0%Q) s' = None.
Proof.
  apply (removeBook_leaves_dangling_pointer (lent slow_clock) 0
           (mkUser "Ada" "U1" [O] 0%Q) "42" []
           (mkBook "Dune" "Herbert" "42" false 105));
    [reflexivity | reflexivity | constructor | | reflexivity].
  intros x Hx. inversion Hx.
Defined.

Lemma borrowBook_twice_sample :
  exists s1 s2,
    borrowBook 0 0 (opened slow_clock) = Some (tt, s1) /\
    borrowBook 7 0 s1 = Some (tt, s2) /\
    cout s2 = cout s1 ++ [BookNotAvailable] /\
    users s2 = users s1 /\
    inventory s2 = inventory s1 /\
    ticks s2 = ticks s1.
Proof.
  apply (borrowBook_twice (opened slow_clock) 0 7 0 ada dune); reflexivity.
Defined.

Lemma returnBook_twice_sample :
  exists s1 s2,
    returnBook 0 0 (lent slow_clock) = Some (tt, s1) /\
    returnBook 0 0 s1 = Some (tt, s2) /\
    cout s2 = cout s1 ++ [NotBorrowed] /\
    users s2 = users s1 /\
    inventory s2 = inventory s1 /\
    ticks s2 = ticks s1.
Proof.
  apply (returnBook_twice (lent slow_clock) 0 0 (mkUser "Ada" "U1" [O] 0%Q)
           (mkBook "Dune" "Herbert" "42" false 105));
    [reflexivity | | constructor | reflexivity].
  apply NoDup_singleton.
Defined.


Lemma borrowed_books_are_checked_out_sample :
  pointers_kept borrowing_run (initial slow_clock) /\
  exec borrowing_run (initial slow_clock) = Some (tt, lent slow_clock) /\
  exists b, inventory (lent slow_clock) !! O = Some b /\ isAvailable b = false.
Proof.
  assert (Hkept : pointers_kept borrowing_run (initial slow_clock)) by run_is_kept.
  split; [exact Hkept|]. split; [reflexivity|].
  apply (borrowed_books_are_checked_out slow_clock borrowing_run (lent slow_clock)
           Hkept eq_refl (mkUser "Ada" "U1" [O] 0%Q) 0); constructor.
Defined.

Lemma checked_out_books_are_held_sample :
  pointers_kept borrowing_run (initial slow_clock) /\
  exists u, u ∈ users (lent slow_clock) /\ O ∈ borrowedBooks u.
Proof.
  assert (Hkept : pointers_kept borrowing_run (initial slow_clock)) by run_is_kept.
  split; [exact Hkept|].
  apply (checked_out_books_are_held slow_clock borrowing_run (lent slow_clock)
           Hkept eq_refl 0 (mkBook "Dune" "Herbert" "42" false 105));
    reflexivity.
Defined.

Lemma no_book_held_twice_sample :
  pointers_kept borrowing_run (initial slow_clock) /\
  exec borrowing_run (initial slow_clock) = Some (tt, lent slow_clock) /\
  NoDup (borrowedBooks (mkUser "Ada" "U1" [O] 0%Q)).
Proof.
  assert (Hkept : pointers_kept borrowing_run (initial slow_clock)) by run_is_kept.
  split; [exact Hkept|]. split; [reflexivity|].
  apply (proj1 (no_book_held_twice slow_clock borrowing_run (lent slow_clock)
                  Hkept eq_refl) O).
  reflexivity.
Defined.

Lemma main_loop_is_a_run_sample :
  main_loop session (initial slow_clock) = Some (session_output, fined) /\
  exists ops,
    exec ops (initial slow_clock) = Some (tt, fined) /\
    (forallb (fun inp => negb (is_choice2 inp)) session = true ->
     forallb (fun o => negb (is_remove o)) ops = true).
Proof.
  split; [reflexivity|].
  apply (main_loop_is_a_run session (initial slow_clock) session_output fined).
  reflexivity.
Defined.

Lemma main_keeps_invariants_sample :
  main slow_clock session = Some (session_output, fined) /\
  (forall u, u ∈ users fined -> (0 <= fines u)%Q).
Proof.
  split; [reflexivity|].
  apply (main_keeps_invariants slow_clock session session_output fined).
  reflexivity.
Defined.

Lemma main_defined_without_removal_sample :
  quiet_session session (initial slow_clock) /\
  exists out s, main slow_clock session = Some (out, s) /\ lending_ok s.
Proof.
  assert (Hquiet : quiet_session session (initial slow_clock)) by run_is_kept.
  split; [exact Hquiet|].
  apply (main_defined_without_removal slow_clock session Hquiet).
Defined.

Lemma main_never_says_not_borrowed_sample :
  NotBorrowed ∉ cout fined.
Proof.
  apply (main_never_says_not_borrowed slow_clock session session_output fined).
  reflexivity.
Defined.

Lemma user_index_out_of_range_sample :
  exists out, iteration (Choice6 3 0) (opened slow_clock) = Some (out, opened slow_clock).
Proof.
  apply (user_index_out_of_range (opened slow_clock) 3 0 0). simpl. lia.
Defined.

Lemma book_index_out_of_range_sample :
  exists out, iteration (Choice5 0 5) (opened slow_clock) = Some (out, opened slow_clock).
Proof.
  apply (book_index_out_of_range (opened slow_clock) 0 5). simpl. lia.
Defined.

Lemma menu_returns_selected_book_sample :
  exists out s' u' b',
    iteration (Choice6 0 0) (lent slow_clock) = Some (out, s') /\
    users s' !! O = Some u' /\
    borrowedBooks u' = [] /\
    inventory s' !! O = Some b' /\
    isAvailable b' = true /\
    dueDate b' = 0.
Proof.
  apply (menu_returns_selected_book (lent slow_clock) 0 0
           (mkUser "Ada" "U1" [O] 0%Q) 0);
    [reflexivity | apply NoDup_singleton | | reflexivity].
  intros p Hp. apply list_elem_of_singleton in Hp. subst p. simpl. eauto.
Defined.

Lemma displayUserInfo_after_run_sample :
  exists books,
    displayUserInfo (mkUser "Ada" "U1" [O] 0%Q) (lent slow_clock) =
      Some (User_displayInfo (mkUser "Ada" "U1" [O] 0%Q)
              ++ Str ("Borrowed Books:" ++ nl)
              :: concat ((fun b => Book_displayInfo b ++ [dashes]) <$> books),
            lent slow_clock) /\
    Forall2 (fun p b => inventory (lent slow_clock) !! p = Some b) [O] books /\
    Forall (fun b => isAvailable b = false) books.
Proof.
  apply (displayUserInfo_after_run slow_clock borrowing_run (lent slow_clock) 0
           (mkUser "Ada" "U1" [O] 0%Q)); [run_is_kept|reflexivity|reflexivity].
Defined.
